(** * ff-media: the MIDI wire-format codec, the channel state engine and the
  request/response exchange, embedded from the TypeScript sources.

  - [Codec]    : src/midi/MIDIStatus.ts, src/midi/MIDIMessage.ts
  - [Channel]  : src/midi/MIDIChannelState.ts
  - [Exchange] : source/midi/MIDIDevice.ts, source/midi/MIDIExchange.ts

  JavaScript numbers that the code uses as integers are [Z]; an array read
  that yields [undefined] is [None]; a [Uint8Array] is a [list Z] whose
  constructor reduces every element modulo 256. *)

From Stdlib Require Import ZArith Lia Bool List.
From stdpp Require Import base option list numbers gmap.

Local Open Scope Z_scope.

(** ** JavaScript primitives shared by the three components *)

Module JS.

(** [a[k]] on an array or typed array: [undefined] outside the bounds. *)
Definition at_ (d : list Z) (k : nat) : option Z := d !! k.

(** [x & m] where [x] may be [undefined]: ToInt32(undefined) is 0. *)
Definition band (x : option Z) (m : Z) : Z := Z.land (default 0 x) m.

(** [x === y] between values that are numbers or [undefined]. *)
Definition strict_eq (x y : option Z) : bool := bool_decide (x = y).

(** [x < k] and [x >= k] against a number: a comparison with [undefined]
    (NaN after conversion) is false. *)
Definition lt (x : option Z) (k : Z) : bool :=
  match x with Some v => v <? k | None => false end.

Definition ge (x : option Z) (k : Z) : bool :=
  match x with Some v => k <=? v | None => false end.

(** [new Uint8Array(numbers)]: every element is stored modulo 2^8. *)
Definition Uint8Array (l : list Z) : list Z := map (fun x => x mod 256) l.

End JS.

(** ** MIDIStatus.ts and MIDIMessage.ts *)

Module Codec.

(** enum MIDIStatus *)
Definition NoteOff : Z := 0x80.
Definition NoteOn : Z := 0x90.
Definition KeyPressure : Z := 0xa0.
Definition ControlChange : Z := 0xb0.
Definition ProgramChange : Z := 0xc0.
Definition ChannelPressure : Z := 0xd0.
Definition PitchBend : Z := 0xe0.
Definition SystemExclusive : Z := 0xf0.

(** enum MIDIMessageType *)
Inductive MIDIMessageType := Channel | System | SysEx.

(** static convertZeroVelToNoteOff: the process-wide flag is a parameter of
    the constructor below; this is its initial value. *)
Definition convertZeroVelToNoteOff_default : bool := true.

(** *** Frame builders *)

Definition noteOn (channel note velocity : Z) : list Z :=
  JS.Uint8Array [Z.lor NoteOn channel; note; velocity].

Definition noteOff (channel note velocity : Z) : list Z :=
  JS.Uint8Array [Z.lor NoteOff channel; note; velocity].

Definition controlChange (channel controller value : Z) : list Z :=
  JS.Uint8Array [Z.lor ControlChange channel; controller; value].

Definition programChange (channel program : Z) : list Z :=
  JS.Uint8Array [Z.lor ProgramChange channel; program].

Definition universalNRTSysEx (deviceId sid1 : Z) (sid2 : option Z)
    (data : option (list Z)) : list Z :=
  let message := [SystemExclusive; 0x7e; deviceId; sid1] in
  let message := match sid2 with Some s => message ++ [s] | None => message end in
  let message := match data with Some d => message ++ d | None => message end in
  JS.Uint8Array message.

Definition universalRTSysEx (deviceId sid1 sid2 : Z)
    (data : option (list Z)) : list Z :=
  let message := [SystemExclusive; 0x7e; deviceId; sid1; sid2] in
  let message := match data with Some d => message ++ d | None => message end in
  JS.Uint8Array message.

(** *** Classification *)

(** static type(firstByte) *)
Definition type (firstByte : option Z) : MIDIMessageType :=
  if JS.strict_eq firstByte (Some 0xf0) then SysEx
  else if JS.band firstByte 0xf0 =? 0xf0 then System
  else Channel.

(** static status(firstByte); [undefined & 0xf0] is 0. *)
Definition status (firstByte : option Z) : Z :=
  if JS.band firstByte 0xf0 =? 0xf0 then default 0 firstByte
  else JS.band firstByte 0xf0.

(** *** Wildcard match *)

(** The [id] argument: [number | number[]]. *)
Inductive SysExId := IdNum (n : Z) | IdArr (a : list Z).

(** The header loop: [header[j] !== 0xff && header[j] !== data[i + j + 1]]
    returns false; [j] counts up from its start value. *)
Fixpoint header_ok (data : list Z) (i : nat) (j : nat) (header : list Z) : bool :=
  match header with
  | [] => true
  | h :: rest =>
      if negb (h =? 0xff) && negb (JS.strict_eq (Some h) (JS.at_ data (i + j + 1)))
      then false
      else header_ok data i (S j) rest
  end.

Definition validateSysEx (data : list Z) (id : SysExId)
    (deviceId : option Z) (header : option (list Z)) : bool :=
  if negb (JS.strict_eq (JS.at_ data 0) (Some SystemExclusive)) then false
  else
    let after_id : option nat :=
      match id with
      | IdNum n =>
          if negb (JS.strict_eq (JS.at_ data 1) (Some n)) then None else Some 2%nat
      | IdArr a =>
          if negb (JS.strict_eq (JS.at_ data 1) (JS.at_ a 0))
             || negb (JS.strict_eq (JS.at_ data 2) (JS.at_ a 1))
             || negb (JS.strict_eq (JS.at_ data 3) (JS.at_ a 2))
          then None else Some 4%nat
      end in
    match after_id with
    | None => false
    | Some i =>
        if match deviceId with
           | Some d => negb (d =? 0x7f) && negb (JS.strict_eq (JS.at_ data i) (Some d))
           | None => false
           end
        then false
        else
          match header with
          | Some h => header_ok data i 0 h
          | None => true
          end
    end.

(** *** Message objects *)

Record MIDIMessage := mkMessage { data : list Z; time : Z }.

(** constructor(data: Uint8Array, time?) under the flag value [convert];
    [now] is what [Date.now()] returns.  The rewrite is done in place on
    the frame the message keeps. *)
Definition new_MIDIMessage (convert : bool) (now : Z) (d : list Z)
    (t : option Z) : MIDIMessage :=
  let time := match t with
              | Some v => if v =? 0 then now else v
              | None => now
              end in
  let d' :=
    if convert
       && (length d =? 3)%nat
       && (JS.band (JS.at_ d 0) 0xf0 =? 0x90)
       && JS.strict_eq (JS.at_ d 2) (Some 0)
    then <[0%nat := Z.lor 0x80 (JS.band (JS.at_ d 0) 0x0f)]> d
    else d in
  mkMessage d' time.

Definition makeNoteOn (convert : bool) (now : Z) (channel note velocity : Z) :=
  new_MIDIMessage convert now (noteOn channel note velocity) None.

Definition makeNoteOff (convert : bool) (now : Z) (channel note velocity : Z) :=
  new_MIDIMessage convert now (noteOff channel note velocity) None.

Definition makeControlChange (convert : bool) (now : Z) (channel controller value : Z) :=
  new_MIDIMessage convert now (controlChange channel controller value) None.

(** Getters.  None of them consults the conversion flag. *)
Definition msg_type (m : MIDIMessage) : MIDIMessageType := type (JS.at_ (data m) 0).
Definition msg_status (m : MIDIMessage) : Z := status (JS.at_ (data m) 0).
Definition channel (m : MIDIMessage) : Z := JS.band (JS.at_ (data m) 0) 0x0f.
Definition note (m : MIDIMessage) : option Z := JS.at_ (data m) 1.
Definition velocity (m : MIDIMessage) : option Z := JS.at_ (data m) 2.
Definition controller (m : MIDIMessage) : option Z := JS.at_ (data m) 1.
Definition value (m : MIDIMessage) : option Z := JS.at_ (data m) 2.
Definition program (m : MIDIMessage) : option Z := JS.at_ (data m) 1.

(** get pitchBend: [data[2] * 0x80 + data[1] - 0x2000]; the arithmetic on
    an absent byte is NaN, rendered as [None]. *)
Definition pitchBend (m : MIDIMessage) : option Z :=
  match JS.at_ (data m) 2, JS.at_ (data m) 1 with
  | Some b2, Some b1 => Some (b2 * 0x80 + b1 - 0x2000)
  | _, _ => None
  end.

End Codec.

(** ** MIDIChannelState.ts *)

Module Channel.

Import Codec.

(** A JavaScript array used as a table.  A read of a missing index gives
    [undefined]; a write at any index (an integer past the end, or the
    property named by [undefined]) adds the entry. *)
Abbreviation table := (gmap (option Z) (option Z)).

Definition table_get (t : table) (k : option Z) : option Z := mjoin (t !! k).

(** [for (let i = 0; i < 128; ++i) t[i] = 0] *)
Definition zero_rows (t : table) : table :=
  foldl (fun acc i => <[Some i := Some 0]> acc) t (seqZ 0 128).

Record MIDIChannelState := mkChannel {
  channel : Z;
  channelPressure : option Z;
  pitchBend : option Z;
  activeNotes : list (list MIDIMessage);
  heldNotes : list MIDIMessage;
  controller : table;
  keyPressure : table;
}.

(** constructor(channel) *)
Definition new_MIDIChannelState (ch : Z) : MIDIChannelState :=
  mkChannel ch (Some 0) (Some 0) (replicate 128 []) [] (zero_rows ∅) (zero_rows ∅).

(** get holdOn *)
Definition holdOn (st : MIDIChannelState) : bool :=
  JS.ge (table_get (controller st) (Some 64)) 64.

(** [this.activeNotes[k]]: [activeNotes] has exactly the indices the
    constructor filled; any other index reads [undefined]. *)
Definition row (an : list (list MIDIMessage)) (k : option Z)
    : option (list MIDIMessage) :=
  match k with
  | Some z => if 0 <=? z then an !! Z.to_nat z else None
  | None => None
  end.

(** [q.push(m)] and [q.shift()] on the queue stored at index [z]. *)
Definition push_row (an : list (list MIDIMessage)) (z : Z) (q : list MIDIMessage)
    (m : MIDIMessage) := <[Z.to_nat z := q ++ [m]]> an.

Definition shift_row (an : list (list MIDIMessage)) (z : Z) (q : list MIDIMessage) :=
  <[Z.to_nat z := tail q]> an.

(** The result of a method call: it returns, or a TypeError escapes from a
    method call on [undefined].  Both carry the object as the call left it
    and the messages handed to the observers ([onMessage] of the channel
    and of its device), in order. *)
Inductive outcome :=
| Returned (st : MIDIChannelState) (notified : list MIDIMessage)
| TypeError (st : MIDIChannelState) (notified : list MIDIMessage).

Definition state_of (o : outcome) : MIDIChannelState :=
  match o with Returned st _ | TypeError st _ => st end.

Definition notified_of (o : outcome) : list MIDIMessage :=
  match o with Returned _ l | TypeError _ l => l end.

(** The loop over [heldNotes] in the Control-Change case: shift the queue
    of each held note and notify the observers; [None] in the first
    component when a queue is [undefined]. *)
Fixpoint release (held : list MIDIMessage) (an : list (list MIDIMessage))
    (out : list MIDIMessage) : bool * list (list MIDIMessage) * list MIDIMessage :=
  match held with
  | [] => (true, an, out)
  | heldNoteOff :: rest =>
      match note heldNoteOff, row an (note heldNoteOff) with
      | Some z, Some q => release rest (shift_row an z q) (out ++ [heldNoteOff])
      | _, _ => (false, an, out)
      end
  end.

Definition set_activeNotes (st : MIDIChannelState) an :=
  mkChannel (channel st) (channelPressure st) (pitchBend st) an
    (heldNotes st) (controller st) (keyPressure st).

Definition set_heldNotes (st : MIDIChannelState) h :=
  mkChannel (channel st) (channelPressure st) (pitchBend st) (activeNotes st)
    h (controller st) (keyPressure st).

Definition set_controller (st : MIDIChannelState) c :=
  mkChannel (channel st) (channelPressure st) (pitchBend st) (activeNotes st)
    (heldNotes st) c (keyPressure st).

Definition set_keyPressure (st : MIDIChannelState) k :=
  mkChannel (channel st) (channelPressure st) (pitchBend st) (activeNotes st)
    (heldNotes st) (controller st) k.

Definition set_pitchBend (st : MIDIChannelState) p :=
  mkChannel (channel st) (channelPressure st) p (activeNotes st)
    (heldNotes st) (controller st) (keyPressure st).

Definition set_channelPressure (st : MIDIChannelState) p :=
  mkChannel (channel st) p (pitchBend st) (activeNotes st)
    (heldNotes st) (controller st) (keyPressure st).

(** update(message).  Observers are assumed not to call back into the
    channel while they are being notified. *)
Definition update (st : MIDIChannelState) (message : MIDIMessage) : outcome :=
  let b1 := JS.at_ (data message) 1 in
  let b2 := JS.at_ (data message) 2 in
  let s := msg_status message in
  if s =? NoteOn then
    match b1, row (activeNotes st) b1 with
    | Some z, Some q =>
        Returned (set_activeNotes st (push_row (activeNotes st) z q message)) [message]
    | _, _ => TypeError st []
    end
  else if s =? NoteOff then
    if holdOn st then
      Returned (set_heldNotes st (heldNotes st ++ [message])) []
    else
      match b1, row (activeNotes st) b1 with
      | Some z, Some q =>
          Returned (set_activeNotes st (shift_row (activeNotes st) z q)) [message]
      | _, _ => TypeError st []
      end
  else if s =? KeyPressure then
    Returned (set_keyPressure st (<[b1 := b2]> (keyPressure st))) [message]
  else if s =? ControlChange then
    let st1 := set_controller st (<[Codec.controller message := Codec.value message]> (controller st)) in
    if JS.strict_eq b1 (Some 64) && JS.lt b2 64 then
      match release (heldNotes st1) (activeNotes st1) [] with
      | (true, an, out) =>
          Returned (set_heldNotes (set_activeNotes st1 an) []) (out ++ [message])
      | (false, an, out) =>
          TypeError (set_activeNotes st1 an) out
      end
    else Returned st1 [message]
  else if s =? PitchBend then
    Returned (set_pitchBend st (Codec.pitchBend message)) [message]
  else if s =? ChannelPressure then
    Returned (set_channelPressure st b1) [message]
  else Returned st [message].

(** reset(): the loop assigns the indices 0..127 of the three arrays. *)
Definition reset (st : MIDIChannelState) : MIDIChannelState :=
  mkChannel (channel st) (Some 0) (Some 0)
    (replicate 128 [] ++ drop 128 (activeNotes st)) []
    (zero_rows (controller st)) (zero_rows (keyPressure st)).

(** A history of calls on one channel object.  After a TypeError the
    object stays as the failed call left it. *)
Inductive call := Update (m : MIDIMessage) | Reset.

Definition do_call (st : MIDIChannelState) (c : call) : MIDIChannelState :=
  match c with
  | Update m => state_of (update st m)
  | Reset => reset st
  end.

Definition run (st : MIDIChannelState) (cs : list call) : MIDIChannelState :=
  foldl do_call st cs.

(** A data byte of a MIDI message has its top bit clear. *)
Definition data_byte (x : option Z) : bool :=
  match x with Some v => (0 <=? v) && (v <? 128) | None => false end.

(** The channel voice messages with two data bytes come as complete
    three-byte frames; other frames are not constrained. *)
Definition complete_frame (m : MIDIMessage) : bool :=
  let s := msg_status m in
  if (s =? NoteOff) || (s =? NoteOn) || (s =? KeyPressure)
     || (s =? ControlChange) || (s =? PitchBend)
  then (length (data m) =? 3)%nat && data_byte (JS.at_ (data m) 1)
       && data_byte (JS.at_ (data m) 2)
  else true.

Definition complete_call (c : call) : bool :=
  match c with Update m => complete_frame m | Reset => true end.

End Channel.

(** ** MIDIDevice.ts and MIDIExchange.ts *)

Module Exchange.

Import Codec.

(** MIDIDevice: the two identity fields the exchange reads. *)
Record MIDIDevice := mkDevice {
  manufacturerId : SysExId;
  deviceId : Z;
}.

(** constructor(manufacturerId, deviceId?): [this.deviceId = deviceId || 0x10] *)
Definition new_MIDIDevice (mid : SysExId) (did : option Z) : MIDIDevice :=
  mkDevice mid (match did with
                | Some 0 | None => 0x10
                | Some d => d
                end).


(** interface IRequiredResponse: all three fields are optional. *)
Record IRequiredResponse := mkRequired {
  req_id : option SysExId;
  req_deviceId : option Z;
  req_header : option (list Z);
}.

(** [response?: IRequiredResponse | IRequiredResponse[]] *)
Inductive ResponseField :=
| NoResponse
| OneResponse (r : IRequiredResponse)
| ManyResponses (rs : list IRequiredResponse).

(** interface IExchangeEvent *)
Record IExchangeEvent := mkEvent {
  request : list Z;
  response : ResponseField;
}.

(** The errors the class creates, by their message:
    "exchange already running", "exchange already completed",
    "no exchange events defined" and
    "no response, timeout reached after N milliseconds." *)
Inductive ExchangeError :=
| AlreadyRunning
| AlreadyCompleted
| NoExchangeEvents
| TimeoutReached (ms : Z).

Inductive settlement := Resolved | Rejected (e : ExchangeError).

(** The object, followed by the part of its environment it acts on: the
    listener registration on the input, the frames given to
    [output.send], the armed timeouts, and the calls made on the
    resolve/reject pairs of the promises [start] created.  [_resolve] and
    [_reject] are always stored together, so one field holds the promise
    they belong to.  The descriptors of a [Set] are distinct objects, kept
    here in insertion order. *)
Record MIDIExchange := mkExchange {
  device : MIDIDevice;
  _isRunning : bool;
  _isCompleted : bool;
  _resolve : option nat;
  _timeout : Z;
  _handle : option nat;
  _exchangeEvents : list IExchangeEvent;
  _responses : list (list Z);
  _eventIndex : nat;
  _requiredResponses : option (list IRequiredResponse);
  listening : bool;
  sent : list (list Z);
  timers : list nat;
  next_timer : nat;
  next_promise : nat;
  settled : list (nat * settlement);
}.

(** constructor(device, exchange?, msTimeout?) on a device whose input and
    output are bound.  A timeout of 0 is falsy and keeps the default. *)
Definition new_MIDIExchange (dev : MIDIDevice) (exchange : list IExchangeEvent)
    (msTimeout : option Z) : MIDIExchange :=
  mkExchange dev false false None
    (match msTimeout with
     | Some 0 | None => 5000
     | Some t => t
     end)
    None exchange [] 0%nat None true [] [] 0%nat 0%nat [].

(** What a method call does to the object, and whether it returned or a
    TypeError escaped from it. *)
Inductive result := Done (ex : MIDIExchange) | Threw (ex : MIDIExchange).

Definition exchange_of (r : result) : MIDIExchange :=
  match r with Done ex | Threw ex => ex end.

(** startExchangeEvent() *)
Definition startExchangeEvent (ex : MIDIExchange) : result :=
  match _exchangeEvents ex !! _eventIndex ex with
  | None => Threw ex
  | Some event =>
      let required :=
        match response event with
        | NoResponse => None
        | OneResponse r => Some [r]
        | ManyResponses rs => Some rs
        end in
      let h := next_timer ex in
      Done (mkExchange (device ex) (_isRunning ex) (_isCompleted ex) (_resolve ex)
              (_timeout ex) (Some h) (_exchangeEvents ex) (_responses ex)
              (_eventIndex ex) required (listening ex)
              (sent ex ++ [request event]) (timers ex ++ [h]) (S h)
              (next_promise ex) (settled ex))
  end.

(** What [start()] hands back: a promise rejected with the error thrown
    in its body, or the pending promise it created. *)
Inductive started := Failed (e : ExchangeError) | Pending (promise : nat).

(** start() *)
Definition start (ex : MIDIExchange) : result * started :=
  if _isRunning ex then (Done ex, Failed AlreadyRunning)
  else if _isCompleted ex then (Done ex, Failed AlreadyCompleted)
  else
    let ex1 := mkExchange (device ex) (_isRunning ex) (_isCompleted ex) (_resolve ex)
                 (_timeout ex) (_handle ex) (_exchangeEvents ex) (_responses ex)
                 0%nat (_requiredResponses ex) (listening ex)
                 (sent ex) (timers ex) (next_timer ex)
                 (next_promise ex) (settled ex) in
    if (length (_exchangeEvents ex1) =? 0)%nat then (Done ex1, Failed NoExchangeEvents)
    else
      let p := next_promise ex1 in
      let ex2 := mkExchange (device ex1) (_isRunning ex1) (_isCompleted ex1) (Some p)
                   (_timeout ex1) (_handle ex1) (_exchangeEvents ex1) (_responses ex1)
                   (_eventIndex ex1) (_requiredResponses ex1) (listening ex1)
                   (sent ex1) (timers ex1) (next_timer ex1)
                   (S p) (settled ex1) in
      (startExchangeEvent ex2, Pending p).

(** resolve() and reject(reason): drop the listener, then call the stored
    function, which is [null] before the first [start]. *)
Definition settle (ex : MIDIExchange) (s : settlement) : result :=
  let ex1 := mkExchange (device ex) (_isRunning ex) (_isCompleted ex) (_resolve ex)
               (_timeout ex) (_handle ex) (_exchangeEvents ex) (_responses ex)
               (_eventIndex ex) (_requiredResponses ex) false
               (sent ex) (timers ex) (next_timer ex)
               (next_promise ex) (settled ex) in
  match _resolve ex1 with
  | None => Threw ex1
  | Some p =>
      Done (mkExchange (device ex1) (_isRunning ex1) (_isCompleted ex1) (_resolve ex1)
              (_timeout ex1) (_handle ex1) (_exchangeEvents ex1) (_responses ex1)
              (_eventIndex ex1) (_requiredResponses ex1) (listening ex1)
              (sent ex1) (timers ex1) (next_timer ex1)
              (next_promise ex1) (settled ex1 ++ [(p, s)]))
  end.

(** The callback given to [setTimeout], run when timeout [h] expires. *)
Definition timeout_fires (ex : MIDIExchange) (h : nat) : result :=
  if bool_decide (h ∈ timers ex) then
    settle (mkExchange (device ex) (_isRunning ex) (_isCompleted ex) (_resolve ex)
              (_timeout ex) (_handle ex) (_exchangeEvents ex) (_responses ex)
              (_eventIndex ex) (_requiredResponses ex) (listening ex)
              (sent ex) (filter (fun t => t ≠ h) (timers ex)) (next_timer ex)
              (next_promise ex) (settled ex))
           (Rejected (TimeoutReached (_timeout ex)))
  else Done ex.

(** [req.id || this.device.manufacturerId]: the number 0 is falsy, an
    array is not. *)
Definition effective_id (dev : MIDIDevice) (req : IRequiredResponse) : SysExId :=
  match req_id req with
  | Some (IdNum 0) | None => manufacturerId dev
  | Some i => i
  end.

(** [req.deviceId || this.device.deviceId] *)
Definition effective_deviceId (dev : MIDIDevice) (req : IRequiredResponse) : Z :=
  match req_deviceId req with
  | Some 0 | None => deviceId dev
  | Some d => d
  end.

(** The test of one descriptor in [onMidiMessage]. *)
Definition descriptor_matches (dev : MIDIDevice) (req : IRequiredResponse)
    (data : list Z) : bool :=
  validateSysEx data (effective_id dev req) (Some (effective_deviceId dev req))
    (req_header req).

(** The loop over the set: the first descriptor that matches is deleted;
    [None] when none matches. *)
Fixpoint delete_first_match (dev : MIDIDevice) (data : list Z)
    (required : list IRequiredResponse) : option (list IRequiredResponse) :=
  match required with
  | [] => None
  | req :: rest =>
      if descriptor_matches dev req data then Some rest
      else option_map (cons req) (delete_first_match dev data rest)
  end.

(** onMidiMessage(event), with [data = event.data]. *)
Definition onMidiMessage (ex : MIDIExchange) (data : list Z) : result :=
  let '(responses, required, exchangeCompleted) :=
    match _requiredResponses ex with
    | Some reqs =>
        match delete_first_match (device ex) data reqs with
        | Some rest => (_responses ex ++ [data], Some rest, (length rest =? 0)%nat)
        | None => (_responses ex, Some reqs, (length reqs =? 0)%nat)
        end
    | None => (_responses ex ++ [data], None, true)
    end in
  if exchangeCompleted then
    let live := match _handle ex with
                | Some h => filter (fun t => t ≠ h) (timers ex)
                | None => timers ex
                end in
    let ex1 := mkExchange (device ex) (_isRunning ex) (_isCompleted ex) (_resolve ex)
                 (_timeout ex) None (_exchangeEvents ex) responses
                 (S (_eventIndex ex)) required (listening ex)
                 (sent ex) live (next_timer ex)
                 (next_promise ex) (settled ex) in
    if (length (_exchangeEvents ex1) <=? _eventIndex ex1)%nat
    then settle ex1 Resolved
    else startExchangeEvent ex1
  else
    Done (mkExchange (device ex) (_isRunning ex) (_isCompleted ex) (_resolve ex)
            (_timeout ex) (_handle ex) (_exchangeEvents ex) responses
            (_eventIndex ex) required (listening ex)
            (sent ex) (timers ex) (next_timer ex)
            (next_promise ex) (settled ex)).

(** The input delivers a frame to the object only while its listener is
    registered. *)
Definition deliver (ex : MIDIExchange) (data : list Z) : result :=
  if listening ex then onMidiMessage ex data else Done ex.

(** What can happen to an exchange object after its construction, and a
    history of such events applied in order. *)
Inductive event :=
| CallStart
| Frame (data : list Z)
| TimerExpires (h : nat).

Definition step (ex : MIDIExchange) (e : event) : MIDIExchange :=
  match e with
  | CallStart => exchange_of (fst (start ex))
  | Frame data => exchange_of (deliver ex data)
  | TimerExpires h => exchange_of (timeout_fires ex h)
  end.

Definition run (ex : MIDIExchange) (es : list event) : MIDIExchange :=
  foldl step ex es.

(** The fields [start] reads before it creates its promise. *)
Definition guards (ex : MIDIExchange) : bool * bool * list IExchangeEvent :=
  (_isRunning ex, _isCompleted ex, _exchangeEvents ex).

End Exchange.

(** ** The properties of the specification, in its own words *)

Module Spec.

Import Codec Exchange.

(** The bytes of a manufacturer id: one for the single-number form, the
    elements of the array for the extended form. *)
Definition id_bytes (id : SysExId) : list Z :=
  match id with IdNum n => [n] | IdArr a => a end.

(** The shapes of [id] the match is specified for. *)
Definition id_shape (id : SysExId) : Prop :=
  match id with IdNum _ => True | IdArr a => length a = 3%nat end.

(** The wildcard match as the specification words it: sysex status first,
    then the id bytes, then the device id unless absent or 0x7f, then the
    header bytes unless 0xff. *)
Definition sysex_accepts (frame : list Z) (id : SysExId)
    (deviceId : option Z) (header : option (list Z)) : Prop :=
  frame !! 0%nat = Some 0xf0
  ∧ (∀ (k : nat) b, id_bytes id !! k = Some b → frame !! (1 + k)%nat = Some b)
  ∧ (∀ d, deviceId = Some d → d ≠ 0x7f →
       frame !! (1 + length (id_bytes id))%nat = Some d)
  ∧ (∀ h (j : nat) b, header = Some h → h !! j = Some b → b ≠ 0xff →
       frame !! (1 + length (id_bytes id) + 1 + j)%nat = Some b).




(** Releasing one held note: the oldest occurrence of its note leaves the
    note's queue. *)
Definition pop_oldest (an : list (list MIDIMessage)) (h : MIDIMessage)
    : list (list MIDIMessage) :=
  match note h, Channel.row an (note h) with
  | Some z, Some q => Channel.shift_row an z q
  | _, _ => an
  end.

(** What every channel object satisfies between calls that carry complete
    frames: the 128 note queues exist, every deferred Note-Off names one
    of them, and nothing is deferred unless hold is on. *)
Definition channel_inv (st : Channel.MIDIChannelState) : Prop :=
  length (Channel.activeNotes st) = 128%nat
  ∧ Forall (fun h => Channel.data_byte (note h) = true) (Channel.heldNotes st)
  ∧ (Channel.holdOn st = false → Channel.heldNotes st = []).

(** The bit-level facts about a status byte built from a channel number,
    as one check that can be run on each of the sixteen channels. *)
Definition nibble_check (ch : Z) : bool :=
  (Z.lor 0x90 ch mod 256 =? 0x90 + ch)
  && (Z.land (0x90 + ch) 0xf0 =? 0x90)
  && (Z.land (0x90 + ch) 0x0f =? ch)
  && (Z.lor 0x80 ch =? 0x80 + ch)
  && (Z.land (0x80 + ch) 0xf0 =? 0x80)
  && (Z.land (0x80 + ch) 0x0f =? ch).

(** How many of the held Note-Offs are for note [n]. *)
Definition held_count (n : Z) (held : list MIDIMessage) : nat :=
  length (List.filter (fun h => bool_decide (note h = Some n)) held).


End Spec.

(** ** MIDIController.ts and the remaining members of MIDIMessage *)

Module Message.

Import Codec.

(** enum MIDIController: the parameter-number controllers *)
Definition DataEntry_MSB : Z := 6.
Definition DataEntry_LSB : Z := 38.
Definition NRPN_LSB : Z := 98.
Definition NRPN_MSB : Z := 99.
Definition RPN_LSB : Z := 100.
Definition RPN_MSB : Z := 101.

(** static rpn7(channel, param, value) *)
Definition rpn7 (channel param value : Z) : list Z :=
  let status := Z.lor ControlChange channel in
  JS.Uint8Array [
    status; RPN_MSB; Z.land (Z.shiftr param 7) 0x7f;
    status; RPN_LSB; Z.land param 0x7f;
    status; DataEntry_MSB; Z.land value 0x7f ].

(** static rpn14(channel, param, value) *)
Definition rpn14 (channel param value : Z) : list Z :=
  let status := Z.lor ControlChange channel in
  JS.Uint8Array [
    status; RPN_MSB; Z.land (Z.shiftr param 7) 0x7f;
    status; RPN_LSB; Z.land param 0x7f;
    status; DataEntry_MSB; Z.land (Z.shiftr value 7) 0x7f;
    status; DataEntry_LSB; Z.land value 0x7f ].

(** static nrpn7(channel, param, value) *)
Definition nrpn7 (channel param value : Z) : list Z :=
  let status := Z.lor ControlChange channel in
  JS.Uint8Array [
    status; NRPN_MSB; Z.land (Z.shiftr param 7) 0x7f;
    status; NRPN_LSB; Z.land param 0x7f;
    status; DataEntry_MSB; Z.land value 0x7f ].

(** static nrpn14(channel, param, value) *)
Definition nrpn14 (channel param value : Z) : list Z :=
  let status := Z.lor ControlChange channel in
  JS.Uint8Array [
    status; NRPN_MSB; Z.land (Z.shiftr param 7) 0x7f;
    status; NRPN_LSB; Z.land param 0x7f;
    status; DataEntry_MSB; Z.land (Z.shiftr value 7) 0x7f;
    status; DataEntry_LSB; Z.land value 0x7f ].

(** static rpnNull(channel) *)
Definition rpnNull (channel : Z) : list Z :=
  let status := Z.lor ControlChange channel in
  JS.Uint8Array [ status; RPN_MSB; 0x7f; status; RPN_LSB; 0x7f ].

(** set channel(channel): [data[0] = (data[0] & 0xf0) | (channel & 0x0f)]
    when the frame is not empty.  The stored value is below 256 whatever
    the operands are, so the typed array keeps it as it is. *)
Definition set_channel (m : MIDIMessage) (ch : Z) : MIDIMessage :=
  if (0 <? length (data m))%nat
  then mkMessage
         (<[0%nat := Z.lor (JS.band (JS.at_ (data m) 0) 0xf0) (Z.land ch 0x0f)]> (data m))
         (time m)
  else m.

(** get manufacturerId: [undefined] on a frame that is not sysex, the array
    [[d[1], d[2], d[3]]] when byte 1 is 0, else [d[1]].  The array is kept as
    the bytes that are present: an entry past the end of the frame is
    [undefined] in the source and reads as [undefined] here. *)
Definition manufacturerId (m : MIDIMessage) : option SysExId :=
  let d := data m in
  if negb (JS.strict_eq (JS.at_ d 0) (Some SystemExclusive)) then None
  else if JS.strict_eq (JS.at_ d 1) (Some 0) then Some (IdArr (take 3 (drop 1 d)))
  else option_map IdNum (JS.at_ d 1).

(** get deviceId *)
Definition deviceId (m : MIDIMessage) : option Z :=
  let d := data m in
  if negb (JS.strict_eq (JS.at_ d 0) (Some SystemExclusive)) then None
  else if JS.strict_eq (JS.at_ d 1) (Some 0) then JS.at_ d 4
  else JS.at_ d 2.

(** instance method validateSysEx(id, deviceId?, data?) *)
Definition msg_validateSysEx (m : MIDIMessage) (id : SysExId)
    (did : option Z) (header : option (list Z)) : bool :=
  validateSysEx (data m) id did header.

End Message.

(** ** MIDIDeviceState.ts *)

Module Device.

Import Codec.

Record MIDIDeviceState := mkDeviceState {
  channels : list Channel.MIDIChannelState;
  omni : Channel.MIDIChannelState;
}.

(** constructor(): sixteen channels 0..15 and the omni channel -1. *)
Definition new_MIDIDeviceState : MIDIDeviceState :=
  mkDeviceState (map Channel.new_MIDIChannelState (seqZ 0 16))
    (Channel.new_MIDIChannelState (-1)).

(** getChannelState(index); [None] is [undefined]. *)
Definition getChannelState (ds : MIDIDeviceState) (index : Z)
    : option Channel.MIDIChannelState :=
  if (0 <=? index) && (index <? 16) then channels ds !! Z.to_nat index
  else Some (omni ds).

(** The result of a method call on the device state, with the messages its
    channels handed to the device's [onMessage].  The omni channel has no
    device, so what it notifies stays with its own observer. *)
Inductive outcome :=
| Returned (ds : MIDIDeviceState) (forwarded : list MIDIMessage)
| TypeError (ds : MIDIDeviceState) (forwarded : list MIDIMessage).

Definition state_of (o : outcome) : MIDIDeviceState :=
  match o with Returned ds _ | TypeError ds _ => ds end.

Definition forwarded_of (o : outcome) : list MIDIMessage :=
  match o with Returned _ l | TypeError _ l => l end.

(** update(message): a channel message goes to its channel, then to omni;
    an exception from the channel leaves omni as it was. *)
Definition update (ds : MIDIDeviceState) (message : MIDIMessage) : outcome :=
  match msg_type message with
  | Channel =>
      let i := Z.to_nat (Codec.channel message) in
      match channels ds !! i with
      | None => TypeError ds []
      | Some c =>
          match Channel.update c message with
          | Channel.TypeError c' out =>
              TypeError (mkDeviceState (<[i := c']> (channels ds)) (omni ds)) out
          | Channel.Returned c' out =>
              match Channel.update (omni ds) message with
              | Channel.Returned o' _ =>
                  Returned (mkDeviceState (<[i := c']> (channels ds)) o') out
              | Channel.TypeError o' _ =>
                  TypeError (mkDeviceState (<[i := c']> (channels ds)) o') out
              end
          end
      end
  | _ => Returned ds []
  end.

(** reset(): the loop resets [channels[0..15]]; [None] when one of them is
    [undefined]. *)
Definition reset (ds : MIDIDeviceState) : option MIDIDeviceState :=
  if (16 <=? length (channels ds))%nat
  then Some (mkDeviceState
               (map Channel.reset (take 16 (channels ds)) ++ drop 16 (channels ds))
               (Channel.reset (omni ds)))
  else None.

(** A stream of messages fed to one device state. *)
Definition feed (ds : MIDIDeviceState) (ms : list MIDIMessage) : MIDIDeviceState :=
  foldl (fun d m => state_of (update d m)) ds ms.

(** The messages of a stream that [update] hands to channel [i], and to
    omni. *)
Definition addressed (i : Z) (m : MIDIMessage) : bool :=
  match msg_type m with
  | Channel => Codec.channel m =? i
  | _ => false
  end.

Definition is_channel_message (m : MIDIMessage) : bool :=
  match msg_type m with Channel => true | _ => false end.

End Device.

(** ** Notions used to state what the channel and the exchange keep *)

Module Observed.

Import Codec.

(** Everything the observers of one channel were handed over a history of
    calls, in order. *)
Fixpoint notified_over (st : Channel.MIDIChannelState) (cs : list Channel.call)
    : list MIDIMessage :=
  match cs with
  | [] => []
  | c :: rest =>
      match c with
      | Channel.Update m =>
          Channel.notified_of (Channel.update st m)
          ++ notified_over (Channel.do_call st c) rest
      | Channel.Reset => notified_over (Channel.do_call st c) rest
      end
  end.

(** The messages of the update calls of a history. *)
Definition messages_of (cs : list Channel.call) : list MIDIMessage :=
  omap (fun c => match c with Channel.Update m => Some m | Channel.Reset => None end) cs.

(** Every key of a table is one of the indices 0..127. *)
Definition table_in_range (t : gmap (option Z) (option Z)) : Prop :=
  ∀ k v, t !! k = Some v → ∃ i, k = Some i ∧ 0 ≤ i < 128.

(** Row [k] of the queue array holds Note-On messages for note [k] only. *)
Definition rows_hold_own_notes (an : list (list MIDIMessage)) : Prop :=
  ∀ (k : nat) q, an !! k = Some q →
    Forall (fun m => msg_status m = NoteOn ∧ note m = Some (Z.of_nat k)) q.

(** The shape every channel object keeps, whatever frames it is given. *)
Definition channel_shape (st : Channel.MIDIChannelState) : Prop :=
  length (Channel.activeNotes st) = 128%nat
  ∧ rows_hold_own_notes (Channel.activeNotes st)
  ∧ Forall (fun m => msg_status m = NoteOff) (Channel.heldNotes st).

(** Whether a message is a Control-Change for controller 64. *)
Definition is_hold_switch (m : MIDIMessage) : bool :=
  (msg_status m =? ControlChange) && JS.strict_eq (Codec.controller m) (Some 64).

(** Hold as a function of the calls alone: a Control-Change for controller
    64 sets it by its value, reset clears it, nothing else touches it. *)
Definition hold_after (h : bool) (cs : list Channel.call) : bool :=
  foldl (fun h c =>
           match c with
           | Channel.Update m => if is_hold_switch m then JS.ge (value m) 64 else h
           | Channel.Reset => false
           end) h cs.

(** The frames among the events of an exchange history. *)
Definition frames_of (es : list Exchange.event) : list (list Z) :=
  omap (fun e => match e with Exchange.Frame d => Some d | _ => None end) es.

(** A frame that completes an event on its own: the event asks for nothing,
    or for one descriptor that the frame matches. *)
Definition answers (dev : Exchange.MIDIDevice) (ev : Exchange.IExchangeEvent)
    (frame : list Z) : bool :=
  match Exchange.response ev with
  | Exchange.NoResponse => true
  | Exchange.OneResponse r => Exchange.descriptor_matches dev r frame
  | Exchange.ManyResponses [r] => Exchange.descriptor_matches dev r frame
  | Exchange.ManyResponses _ => false
  end.

(** The descriptors [startExchangeEvent] arms for an event. *)
Definition required_of (ev : Exchange.IExchangeEvent)
    : option (list Exchange.IRequiredResponse) :=
  match Exchange.response ev with
  | Exchange.NoResponse => None
  | Exchange.OneResponse r => Some [r]
  | Exchange.ManyResponses rs => Some rs
  end.

(** An exchange that waits for the responses of its current event: it
    listens, holds the resolver of promise [p], and its one armed timeout
    is [h]. *)
Definition armed (ex : Exchange.MIDIExchange) (p h : nat) : Prop :=
  Exchange.listening ex = true
  ∧ Exchange._resolve ex = Some p
  ∧ Exchange._handle ex = Some h
  ∧ Exchange.timers ex = [h]
  ∧ ∃ ev, Exchange._exchangeEvents ex !! Exchange._eventIndex ex = Some ev
          ∧ Exchange._requiredResponses ex = required_of ev.

End Observed.

(** Decide the status comparisons of [update] once the status is known. *)
Ltac known_status H :=
unfold Channel.update; rewrite H;
repeat match goal with
       | |- context [?a =? ?b] =>
           let r := eval vm_compute in (a =? b) in
           progress change (a =? b) with r
       end;
cbv iota.

(** * Proofs *)

(** ** Arithmetic on bytes *)

Section Bytes.

(** A property checked on every element of an interval holds on the
    interval. *)
Lemma Z_interval_forallb (P : Z → bool) (lo n : Z) :
  forallb P (seqZ lo n) = true → ∀ z, lo ≤ z < lo + n → P z = true.
Proof.
  intros Hall z Hz.
  rewrite forallb_forall in Hall. apply Hall.
  apply list_elem_of_In, elem_of_seqZ. lia.
Qed.

Lemma nibble_facts (ch : Z) :
  0 ≤ ch < 16 →
  Z.lor 0x90 ch mod 256 = 0x90 + ch
  ∧ Z.land (0x90 + ch) 0xf0 = 0x90
  ∧ Z.land (0x90 + ch) 0x0f = ch
  ∧ Z.lor 0x80 ch = 0x80 + ch
  ∧ Z.land (0x80 + ch) 0xf0 = 0x80
  ∧ Z.land (0x80 + ch) 0x0f = ch.
Proof.
  intros Hch.
  assert (H : Spec.nibble_check ch = true).
  { apply (Z_interval_forallb Spec.nibble_check 0 16); [vm_compute; reflexivity | lia]. }
  unfold Spec.nibble_check in H.
  repeat (apply andb_prop in H; destruct H as [H ?]).
  repeat split; apply Z.eqb_eq; assumption.
Qed.

(** On a byte, the Note-On status nibble is the range 0x90..0x9F. *)
Lemma noteOn_nibble (b : Z) :
  0 ≤ b < 256 → (Z.land b 0xf0 = 0x90 ↔ 0x90 ≤ b ≤ 0x9f).
Proof.
  intros Hb.
  pose (P := fun b => bool_decide (Z.land b 0xf0 = 0x90 ↔ 0x90 ≤ b ≤ 0x9f)).
  assert (H : P b = true).
  { apply (Z_interval_forallb P 0 256); [vm_compute; reflexivity | lia]. }
  unfold P in H. apply bool_decide_eq_true in H. exact H.
Qed.

End Bytes.

(** ** The codec *)

Section CodecProofs.

Import Codec.

Lemma strict_eq_true (x y : option Z) : JS.strict_eq x y = true ↔ x = y.
Proof. unfold JS.strict_eq. apply bool_decide_eq_true. Qed.

Lemma strict_eq_false (x y : option Z) : JS.strict_eq x y = false ↔ x ≠ y.
Proof. unfold JS.strict_eq. apply bool_decide_eq_false. Qed.

(** The constructor never touches a byte after the first. *)
Lemma new_MIDIMessage_tail (convert : bool) (now : Z) (d : list Z) (t : option Z) (k : nat) :
  JS.at_ (data (new_MIDIMessage convert now d t)) (S k) = JS.at_ d (S k).
Proof.
  unfold new_MIDIMessage, JS.at_; simpl.
  destruct (_ && _); [|reflexivity].
  destruct d; reflexivity.
Qed.

Lemma new_MIDIMessage_no_convert (now : Z) (d : list Z) (t : option Z) :
  data (new_MIDIMessage false now d t) = d.
Proof. reflexivity. Qed.

(** The header loop, as a statement about every header byte. *)
Lemma header_ok_spec (frame : list Z) (i : nat) (h : list Z) (j : nat) :
  header_ok frame i j h = true ↔
  ∀ (k : nat) b, h !! k = Some b → b ≠ 0xff → frame !! (i + (j + k) + 1)%nat = Some b.
Proof.
  revert j. induction h as [|x h IH]; intros j; simpl.
  - split; [intros _ k b Hk; destruct k; discriminate Hk | reflexivity].
  - destruct (negb (x =? 0xff) && negb (JS.strict_eq (Some x) (JS.at_ frame (i + j + 1))))
      eqn:Hx.
    + split; [discriminate|]. intros Hall.
      apply andb_prop in Hx as [Hne Hd].
      apply negb_true_iff in Hne, Hd.
      apply Z.eqb_neq in Hne. apply strict_eq_false in Hd.
      specialize (Hall 0%nat x eq_refl Hne).
      rewrite Nat.add_0_r in Hall. unfold JS.at_ in Hd. congruence.
    + rewrite IH. split.
      * intros Hall [|k] b Hk Hb; simpl in Hk.
        -- injection Hk as ->.
           apply andb_false_iff in Hx as [Hx|Hx]; apply negb_false_iff in Hx.
           ++ apply Z.eqb_eq in Hx. contradiction.
           ++ apply strict_eq_true in Hx. rewrite Nat.add_0_r.
              unfold JS.at_ in Hx. congruence.
        -- replace (i + (j + S k) + 1)%nat with (i + (S j + k) + 1)%nat by lia.
           eauto.
      * intros Hall k b Hk Hb.
        replace (i + (S j + k) + 1)%nat with (i + (j + S k) + 1)%nat by lia.
        apply Hall; assumption.
Qed.

End CodecProofs.

Section ValidateSysEx.

Import Codec Spec.

Lemma device_check_spec (frame : list Z) (i : nat) (deviceId : option Z) :
  match deviceId with
  | Some d => negb (d =? 0x7f) && negb (JS.strict_eq (JS.at_ frame i) (Some d))
  | None => false
  end = false ↔
  ∀ d, deviceId = Some d → d ≠ 0x7f → frame !! i = Some d.
Proof.
  destruct deviceId as [d|].
  - rewrite andb_false_iff, !negb_false_iff, Z.eqb_eq, strict_eq_true.
    unfold JS.at_. split.
    + intros [->|H] d' [= <-] Hd; [contradiction | assumption].
    + intros H. destruct (decide (d = 0x7f)); [left; assumption | right; eauto].
  - split; [intros _ d [=] | reflexivity].
Qed.

Lemma header_check_spec (frame : list Z) (i : nat) (header : option (list Z)) :
  match header with Some h => header_ok frame i 0 h | None => true end = true ↔
  ∀ h (j : nat) b, header = Some h → h !! j = Some b → b ≠ 0xff →
    frame !! (i + 1 + j)%nat = Some b.
Proof.
  destruct header as [h|].
  - rewrite header_ok_spec. split.
    + intros H h' j b [= <-] Hj Hb.
      replace (i + 1 + j)%nat with (i + (0 + j) + 1)%nat by lia. eauto.
    + intros H k b Hk Hb.
      replace (i + (0 + k) + 1)%nat with (i + 1 + k)%nat by lia. eauto.
  - split; [intros _ h j b [=] | reflexivity].
Qed.

(** validateSysEx decides the match of the specification on ids of the
    two documented shapes. *)
Lemma validateSysEx_iff (frame : list Z) (id : SysExId)
    (deviceId : option Z) (header : option (list Z)) :
  id_shape id →
  validateSysEx frame id deviceId header = true ↔
  sysex_accepts frame id deviceId header.
Proof.
  intros Hshape. unfold validateSysEx, sysex_accepts.
  destruct (JS.strict_eq (JS.at_ frame 0) (Some SystemExclusive)) eqn:H0; simpl.
  2:{ apply strict_eq_false in H0. unfold JS.at_, SystemExclusive in H0.
      split; [discriminate | intros [? _]; contradiction]. }
  apply strict_eq_true in H0. unfold JS.at_, SystemExclusive in H0.
  destruct id as [n|a]; simpl in Hshape |- *.
  - destruct (JS.strict_eq (JS.at_ frame 1) (Some n)) eqn:H1; simpl.
    + apply strict_eq_true in H1. unfold JS.at_ in H1.
      destruct (match deviceId with Some d => _ | None => false end) eqn:Hd.
      * split; [discriminate|]. intros (_ & _ & Hdev & _).
        pose proof (proj2 (device_check_spec frame 2 deviceId) Hdev). congruence.
      * pose proof (proj1 (device_check_spec frame 2 deviceId) Hd) as Hdev.
        rewrite (header_check_spec frame 2 header).
        split.
        -- intros Hh. repeat split; try assumption.
           intros [|k] b Hk; simpl in Hk; [congruence | destruct k; discriminate].
        -- intros (_ & _ & _ & Hh). exact Hh.
    + apply strict_eq_false in H1. unfold JS.at_ in H1.
      split; [discriminate|]. intros (_ & Hid & _).
      specialize (Hid 0%nat n eq_refl). contradiction.
  - destruct a as [|x [|y [|z [|]]]]; try discriminate Hshape.
    unfold JS.at_ at 2 4 6. simpl (_ !! _).
    destruct (JS.strict_eq (JS.at_ frame 1) (Some x)) eqn:H1;
      destruct (JS.strict_eq (JS.at_ frame 2) (Some y)) eqn:H2;
      destruct (JS.strict_eq (JS.at_ frame 3) (Some z)) eqn:H3; simpl;
      try (apply strict_eq_false in H1); try (apply strict_eq_false in H2);
      try (apply strict_eq_false in H3); unfold JS.at_ in *;
      try (split; [discriminate|]; intros (_ & Hid & _);
           pose proof (Hid 0%nat x eq_refl); pose proof (Hid 1%nat y eq_refl);
           pose proof (Hid 2%nat z eq_refl); contradiction).
    apply strict_eq_true in H1, H2, H3.
    destruct (match deviceId with Some d => _ | None => false end) eqn:Hd.
    + split; [discriminate|]. intros (_ & _ & Hdev & _).
      pose proof (proj2 (device_check_spec frame 4 deviceId) Hdev) as Hx.
      unfold JS.at_ in Hx. congruence.
    + pose proof (proj1 (device_check_spec frame 4 deviceId) Hd) as Hdev.
      rewrite (header_check_spec frame 4 header).
      split.
      * intros Hh. repeat split; try assumption.
        intros [|[|[|k]]] b Hk; simpl in Hk; try congruence.
        destruct k; discriminate.
      * intros (_ & _ & _ & Hh). exact Hh.
Qed.

End ValidateSysEx.

Section CodecClaims.

Import Codec Spec.

(** C5. validateSysEx returns true exactly when the frame starts with the
    sysex status 0xF0, carries the manufacturer id (one byte for a single
    number, bytes 1..3 for a three-element array), carries the device id
    right after the id whenever one is given that is not the wildcard
    0x7f, and agrees with every header byte that is not the wildcard 0xff.
    With id 0x43 and the wildcard device id it accepts frames that begin
    F0 43 10 and F0 43 7F; with device id 0x10 it rejects F0 43 20. *)
Theorem validateSysEx_wildcard_match :
  (∀ frame id deviceId header,
     id_shape id →
     validateSysEx frame id deviceId header = true ↔
     sysex_accepts frame id deviceId header)
  ∧ (∀ rest, validateSysEx ([0xf0; 0x43; 0x10] ++ rest) (IdNum 0x43) (Some 0x7f) None = true)
  ∧ (∀ rest, validateSysEx ([0xf0; 0x43; 0x7f] ++ rest) (IdNum 0x43) (Some 0x7f) None = true)
  ∧ (∀ rest, validateSysEx ([0xf0; 0x43; 0x20] ++ rest) (IdNum 0x43) (Some 0x10) None = false).
Proof.
  split; [exact validateSysEx_iff|].
  repeat split; intros rest; reflexivity.
Qed.

Lemma validateSysEx_wildcard_match_witness :
  id_shape (IdArr [0x00; 0x20; 0x29])
  ∧ (validateSysEx [0xf0; 0x00; 0x20; 0x29; 0x10; 0x7e; 0x06]
       (IdArr [0x00; 0x20; 0x29]) (Some 0x10) (Some [0x7e; 0xff]) = true ↔
     sysex_accepts [0xf0; 0x00; 0x20; 0x29; 0x10; 0x7e; 0x06]
       (IdArr [0x00; 0x20; 0x29]) (Some 0x10) (Some [0x7e; 0xff])).
Proof.
  split; [reflexivity|].
  apply (proj1 validateSysEx_wildcard_match). reflexivity.
Defined.

(** On a frame too short to hold both data bytes the accessor yields NaN. *)
Lemma pitchBend_short_frame (m : MIDIMessage) :
  (length (data m) < 3)%nat → pitchBend m = None.
Proof.
  intros Hlen. unfold pitchBend, JS.at_.
  rewrite (lookup_ge_None_2 (data m) 2) by lia. reflexivity.
Qed.

(** C6. pitchBend is byte2 * 128 + byte1 - 8192; on 7-bit data bytes it
    lies in -8192..8191; and a value v of that range, split into
    (v + 8192) mod 128 and (v + 8192) / 128, is read back as v. *)
Theorem pitchBend_value_range_roundtrip :
  (∀ m b1 b2,
     JS.at_ (data m) 1 = Some b1 → JS.at_ (data m) 2 = Some b2 →
     pitchBend m = Some (b2 * 128 + b1 - 8192)
     ∧ (0 ≤ b1 < 128 → 0 ≤ b2 < 128 → -8192 ≤ b2 * 128 + b1 - 8192 ≤ 8191))
  ∧ (∀ convert now t s v,
       -8192 ≤ v ≤ 8191 →
       let lsb := (v + 8192) mod 128 in
       let msb := (v + 8192) / 128 in
       0 ≤ lsb < 128 ∧ 0 ≤ msb < 128
       ∧ pitchBend (new_MIDIMessage convert now [s; lsb; msb] t) = Some v).
Proof.
  split.
  - intros m b1 b2 H1 H2. unfold pitchBend. rewrite H1, H2.
    split; [reflexivity | lia].
  - intros convert now t s v Hv lsb msb.
    assert (Hl : 0 ≤ lsb < 128) by (apply Z.mod_pos_bound; lia).
    assert (Hm : 0 ≤ msb < 128).
    { unfold msb. split; [apply Z.div_pos; lia | apply Z.div_lt_upper_bound; lia]. }
    repeat split; try lia.
    unfold pitchBend. rewrite !new_MIDIMessage_tail. unfold JS.at_; simpl.
    f_equal. unfold lsb, msb.
    pose proof (Z.div_mod (v + 8192) 128 ltac:(lia)). lia.
Qed.

Lemma pitchBend_value_range_roundtrip_witness :
  -8192 ≤ -1 ≤ 8191
  ∧ pitchBend (new_MIDIMessage true 0 [0xe0; (-1 + 8192) mod 128; (-1 + 8192) / 128] None)
    = Some (-1).
Proof.
  split; [lia|].
  apply (proj2 pitchBend_value_range_roundtrip true 0 None 0xe0 (-1)). lia.
Defined.

(** C7. A message constructed from noteOn(ch, note, vel), with ch in 0..15
    and note, vel in 0..127, reads back as a channel message on channel
    ch with that note and velocity, whatever the conversion flag; only the
    status depends on the flag, and only when vel = 0. *)
Theorem noteOn_roundtrip (convert : bool) (now : Z) (t : option Z) (ch n vel : Z) :
  0 ≤ ch < 16 → 0 ≤ n < 128 → 0 ≤ vel < 128 →
  let m := new_MIDIMessage convert now (noteOn ch n vel) t in
  msg_type m = Channel
  ∧ channel m = ch
  ∧ note m = Some n
  ∧ velocity m = Some vel
  ∧ msg_status m = (if convert && (vel =? 0) then NoteOff else NoteOn).
Proof.
  intros Hch Hn Hvel m.
  destruct (nibble_facts ch Hch) as (E1 & E2 & E3 & E4 & E5 & E6).
  assert (Hd : noteOn ch n vel = [0x90 + ch; n; vel]).
  { unfold noteOn, JS.Uint8Array, NoteOn; simpl.
    rewrite E1, !Z.mod_small by lia. reflexivity. }
  subst m. rewrite Hd.
  unfold new_MIDIMessage, msg_type, channel, note, velocity, msg_status,
    type, status, JS.band, JS.at_, JS.strict_eq; simpl.
  rewrite E2; simpl.
  destruct convert; simpl.
  - destruct (Z.eqb_spec vel 0) as [->|Hne].
    + simpl. rewrite E3, E4, E5, E6.
      rewrite bool_decide_eq_false_2 by (intros [=]; lia).
      repeat split.
    + rewrite (bool_decide_eq_false_2 (Some vel = Some 0)) by congruence.
      simpl. rewrite E2, E3.
      rewrite bool_decide_eq_false_2 by (intros [=]; lia).
      repeat split.
  - rewrite E2, E3.
    rewrite bool_decide_eq_false_2 by (intros [=]; lia).
    repeat split.
Qed.

Lemma noteOn_roundtrip_witness :
  let m := new_MIDIMessage true 7 (noteOn 9 60 0) None in
  msg_type m = Channel ∧ channel m = 9 ∧ note m = Some 60 ∧ velocity m = Some 0
  ∧ msg_status m = NoteOff.
Proof.
  apply (noteOn_roundtrip true 7 None 9 60 0); lia.
Defined.

End CodecClaims.

Section ConstructionPolicy.

Import Codec.

(** C8. With the conversion flag on, a three-byte frame with a Note-On
    status byte (0x90..0x9F) and velocity 0 becomes the Note-Off frame of
    the same channel; any other frame of bytes is kept as it is; with the
    flag off nothing is rewritten; the rewrite is not repeated when the
    converted frame is constructed again; and the getters do not rewrite:
    a message built with the flag off still reads as Note-On. *)
Theorem zero_velocity_rewrite :
  (∀ now t b0 b1,
     0x90 ≤ b0 ≤ 0x9f →
     let m := new_MIDIMessage true now [b0; b1; 0] t in
     data m = [0x80 + (b0 - 0x90); b1; 0]
     ∧ msg_status m = NoteOff
     ∧ channel m = channel (new_MIDIMessage false now [b0; b1; 0] t)
     ∧ (∀ convert now' t', data (new_MIDIMessage convert now' (data m) t') = data m))
  ∧ (∀ now t d,
       Forall (fun b => 0 ≤ b < 256) d →
       length d ≠ 3%nat
       ∨ ¬ (∃ b0, d !! 0%nat = Some b0 ∧ 0x90 ≤ b0 ≤ 0x9f)
       ∨ d !! 2%nat ≠ Some 0 →
       data (new_MIDIMessage true now d t) = d)
  ∧ (∀ now t d, data (new_MIDIMessage false now d t) = d)
  ∧ (∀ now t b0 b1,
       0x90 ≤ b0 ≤ 0x9f →
       msg_status (new_MIDIMessage false now [b0; b1; 0] t) = NoteOn).
Proof.
  repeat apply conj.
  - intros now t b0 b1 Hb m.
    destruct (nibble_facts (b0 - 0x90) ltac:(lia)) as (_ & E2 & E3 & E4 & E5 & E6).
    replace (0x90 + (b0 - 0x90)) with b0 in E2, E3 by lia.
    assert (Hm : data m = [0x80 + (b0 - 0x90); b1; 0]).
    { subst m. unfold new_MIDIMessage, JS.band, JS.at_, JS.strict_eq; simpl.
      rewrite E2, E3, E4. reflexivity. }
    rewrite Hm. repeat apply conj.
    + reflexivity.
    + unfold msg_status, status, JS.band, JS.at_. rewrite Hm; simpl.
      rewrite E5. reflexivity.
    + unfold channel, JS.band, JS.at_. rewrite Hm; simpl.
      rewrite E6, E3. reflexivity.
    + intros convert now' t'.
      unfold new_MIDIMessage, JS.band, JS.at_; simpl.
      rewrite E5. rewrite !andb_false_r. reflexivity.
  - intros now t d Hbytes Hother.
    unfold new_MIDIMessage; simpl.
    destruct ((length d =? 3)%nat && (JS.band (JS.at_ d 0) 0xf0 =? 0x90)
              && JS.strict_eq (JS.at_ d 2) (Some 0)) eqn:Hc; [|reflexivity].
    exfalso.
    apply andb_prop in Hc as [Hc H2]. apply andb_prop in Hc as [Hlen Hs].
    apply Nat.eqb_eq in Hlen. apply Z.eqb_eq in Hs.
    apply strict_eq_true in H2. unfold JS.at_ in H2.
    destruct d as [|b0 [|x [|y [|]]]]; try discriminate Hlen.
    unfold JS.band, JS.at_ in Hs; simpl in Hs.
    apply Forall_cons in Hbytes as [Hb0 _].
    apply (noteOn_nibble b0 Hb0) in Hs.
    destruct Hother as [H|[H|H]].
    + apply H. reflexivity.
    + apply H. exists b0. split; [reflexivity | assumption].
    + apply H. exact H2.
  - intros now t d. reflexivity.
  - intros now t b0 b1 Hb.
    destruct (nibble_facts (b0 - 0x90) ltac:(lia)) as (_ & E2 & _).
    replace (0x90 + (b0 - 0x90)) with b0 in E2 by lia.
    unfold msg_status, status, new_MIDIMessage, JS.band, JS.at_; simpl.
    rewrite E2. reflexivity.
Qed.

Lemma zero_velocity_rewrite_witness :
  data (new_MIDIMessage true 0 [0x93; 60; 0] None) = [0x83; 60; 0]
  ∧ data (new_MIDIMessage true 0 [0x93; 60; 1] None) = [0x93; 60; 1]
  ∧ msg_status (new_MIDIMessage false 0 [0x93; 60; 0] None) = NoteOn.
Proof.
  destruct zero_velocity_rewrite as (H1 & H2 & _ & H4).
  split; [|split].
  - apply (H1 0 None 0x93 60). lia.
  - apply (H2 0 None [0x93; 60; 1]).
    + repeat constructor; lia.
    + right. right. discriminate.
  - apply (H4 0 None 0x93 60). lia.
Defined.

(** C9. The two universal sysex builders: both write 0x7E as the second
    byte.  The non-realtime frame is F0 7E deviceId subId1 [subId2]
    [payload] as specified; the realtime frame is F0 7E deviceId subId1
    subId2 [payload], so its second byte is not the realtime id 0x7F. *)
Theorem universalRTSysEx_second_byte (deviceId sid1 sid2 : Z) (payload : list Z) :
  universalRTSysEx deviceId sid1 sid2 (Some payload)
    = [0xf0; 0x7e; deviceId mod 256; sid1 mod 256; sid2 mod 256] ++ JS.Uint8Array payload
  ∧ universalRTSysEx deviceId sid1 sid2 None
    = [0xf0; 0x7e; deviceId mod 256; sid1 mod 256; sid2 mod 256]
  ∧ universalRTSysEx deviceId sid1 sid2 (Some payload) !! 1%nat ≠ Some 0x7f
  ∧ universalNRTSysEx deviceId sid1 (Some sid2) (Some payload)
    = [0xf0; 0x7e; deviceId mod 256; sid1 mod 256; sid2 mod 256] ++ JS.Uint8Array payload
  ∧ universalNRTSysEx deviceId sid1 None None
    = [0xf0; 0x7e; deviceId mod 256; sid1 mod 256].
Proof.
  unfold universalRTSysEx, universalNRTSysEx, JS.Uint8Array, SystemExclusive.
  repeat apply conj; try reflexivity.
  simpl. discriminate.
Qed.

End ConstructionPolicy.

(** ** The channel state engine *)

Section ChannelTables.

Import Codec Channel.

Lemma table_get_insert (t : table) (k v : option Z) :
  table_get (<[k := v]> t) k = v.
Proof. unfold table_get. rewrite lookup_insert_eq. reflexivity. Qed.

Lemma table_get_insert_ne (t : table) (k k' v : option Z) :
  k ≠ k' → table_get (<[k := v]> t) k' = table_get t k'.
Proof. intros H. unfold table_get. rewrite lookup_insert_ne by assumption. reflexivity. Qed.

Lemma zero_loop_get (l : list Z) (t : table) (k : Z) :
  table_get (foldl (fun acc i => <[Some i := Some 0]> acc) t l) (Some k)
  = if decide (k ∈ l) then Some 0 else table_get t (Some k).
Proof.
  revert t. induction l as [|i l IH]; intros t.
  - destruct (decide (k ∈ [])) as [Hin|_]; [|reflexivity].
    apply elem_of_nil in Hin. contradiction.
  - change (foldl _ t (i :: l))
      with (foldl (fun acc i => <[Some i := Some 0]> acc) (<[Some i := Some 0]> t) l).
    rewrite IH.
    destruct (decide (k ∈ l)) as [Hin|Hnin]; destruct (decide (k ∈ i :: l)) as [Hin'|Hnin'].
    + reflexivity.
    + exfalso. apply Hnin', elem_of_cons. auto.
    + apply elem_of_cons in Hin' as [->|?]; [|contradiction].
      apply table_get_insert.
    + apply table_get_insert_ne. intros [= ->].
      apply Hnin', elem_of_cons. auto.
Qed.

Lemma zero_rows_get (t : table) (k : Z) :
  0 ≤ k < 128 → table_get (zero_rows t) (Some k) = Some 0.
Proof.
  intros Hk. unfold zero_rows. rewrite zero_loop_get.
  rewrite decide_True by (apply elem_of_seqZ; lia). reflexivity.
Qed.

Lemma holdOn_new (ch : Z) : holdOn (new_MIDIChannelState ch) = false.
Proof.
  unfold holdOn, new_MIDIChannelState. cbn [controller].
  rewrite zero_rows_get by lia. reflexivity.
Qed.

Lemma holdOn_reset (st : MIDIChannelState) : holdOn (reset st) = false.
Proof.
  unfold holdOn, reset. cbn [controller].
  rewrite zero_rows_get by lia. reflexivity.
Qed.

(** A row of the queue array exists exactly for the notes 0..127. *)
Lemma row_exists (an : list (list MIDIMessage)) (n : Z) :
  length an = 128%nat → 0 ≤ n < 128 →
  ∃ q, an !! Z.to_nat n = Some q ∧ row an (Some n) = Some q.
Proof.
  intros Hlen Hn.
  destruct (lookup_lt_is_Some_2 an (Z.to_nat n) ltac:(lia)) as [q Hq].
  exists q. split; [assumption|].
  unfold row. destruct (Z.leb_spec 0 n); [assumption | lia].
Qed.

Lemma data_byte_range (x : option Z) :
  data_byte x = true ↔ ∃ n, x = Some n ∧ 0 ≤ n < 128.
Proof.
  unfold data_byte. destruct x as [v|].
  - rewrite andb_true_iff, Z.leb_le, Z.ltb_lt. split.
    + intros H. exists v. split; [reflexivity | lia].
    + intros (n & [= ->] & H). lia.
  - split; [discriminate | intros (n & H & _); discriminate].
Qed.

End ChannelTables.

Section ChannelUpdate.

Import Codec Channel Spec.

Lemma update_NoteOn (st : MIDIChannelState) (m : MIDIMessage) (n : Z) q :
  msg_status m = NoteOn → note m = Some n → row (activeNotes st) (Some n) = Some q →
  update st m = Returned (set_activeNotes st (push_row (activeNotes st) n q m)) [m].
Proof.
  intros Hs Hn Hq. known_status Hs.
  change (JS.at_ (data m) 1) with (note m). rewrite Hn, Hq. reflexivity.
Qed.

Lemma update_NoteOff_hold (st : MIDIChannelState) (m : MIDIMessage) :
  msg_status m = NoteOff → holdOn st = true →
  update st m = Returned (set_heldNotes st (heldNotes st ++ [m])) [].
Proof. intros Hs Hh. known_status Hs. rewrite Hh. reflexivity. Qed.

Lemma update_NoteOff_free (st : MIDIChannelState) (m : MIDIMessage) (n : Z) q :
  msg_status m = NoteOff → holdOn st = false →
  note m = Some n → row (activeNotes st) (Some n) = Some q →
  update st m = Returned (set_activeNotes st (shift_row (activeNotes st) n q)) [m].
Proof.
  intros Hs Hh Hn Hq. known_status Hs. rewrite Hh.
  change (JS.at_ (data m) 1) with (note m). rewrite Hn, Hq. reflexivity.
Qed.

Lemma update_ControlChange_keep (st : MIDIChannelState) (m : MIDIMessage) :
  msg_status m = ControlChange →
  JS.strict_eq (Codec.controller m) (Some 64) && JS.lt (value m) 64 = false →
  update st m
  = Returned (set_controller st (<[Codec.controller m := value m]> (Channel.controller st))) [m].
Proof.
  intros Hs Hc. known_status Hs.
  change (JS.at_ (data m) 1) with (Codec.controller m).
  change (JS.at_ (data m) 2) with (value m).
  rewrite Hc. reflexivity.
Qed.

Lemma pop_oldest_length an h : length (pop_oldest an h) = length an.
Proof.
  unfold pop_oldest, shift_row.
  destruct (note h); [|reflexivity].
  destruct (row an _); [apply length_insert | reflexivity].
Qed.

Lemma foldl_pop_oldest_length held an :
  length (foldl pop_oldest an held) = length an.
Proof.
  revert an. induction held as [|h held IH]; intros an; simpl; [reflexivity|].
  rewrite IH. apply pop_oldest_length.
Qed.

Lemma foldl_pop_oldest_length_eq held an (k : nat) :
  length an = k → length (foldl pop_oldest an held) = k.
Proof. intros <-. apply foldl_pop_oldest_length. Qed.

(** The release loop runs to its end when every held Note-Off names one
    of the 128 queues; it pops them in the order they were deferred. *)
Lemma release_all held an out :
  length an = 128%nat →
  Forall (fun h => data_byte (note h) = true) held →
  release held an out = (true, foldl pop_oldest an held, out ++ held).
Proof.
  revert an out. induction held as [|h held IH]; intros an out Hlen Hall; simpl.
  - rewrite app_nil_r. reflexivity.
  - apply Forall_cons in Hall as [Hh Hall].
    apply data_byte_range in Hh as (n & Hn & Hr).
    destruct (row_exists an n Hlen Hr) as (q & _ & Hq).
    unfold pop_oldest at 2. rewrite Hn, Hq.
    rewrite IH by (unfold shift_row; rewrite ?length_insert; assumption).
    rewrite <- app_assoc. reflexivity.
Qed.

Lemma update_ControlChange_release (st : MIDIChannelState) (m : MIDIMessage) (v : Z) :
  msg_status m = ControlChange →
  Codec.controller m = Some 64 → value m = Some v → v < 64 →
  length (activeNotes st) = 128%nat →
  Forall (fun h => data_byte (note h) = true) (heldNotes st) →
  update st m
  = Returned
      (mkChannel (Channel.channel st) (channelPressure st) (Channel.pitchBend st)
         (foldl pop_oldest (activeNotes st) (heldNotes st)) []
         (<[Some 64 := Some v]> (Channel.controller st)) (keyPressure st))
      (heldNotes st ++ [m]).
Proof.
  intros Hs Hc Hv Hlt Hlen Hheld. known_status Hs.
  change (JS.at_ (data m) 1) with (Codec.controller m).
  change (JS.at_ (data m) 2) with (value m).
  rewrite Hc, Hv.
  replace (JS.strict_eq (Some 64) (Some 64) && JS.lt (Some v) 64) with true.
  2:{ symmetry. apply andb_true_iff. split; [reflexivity | apply Z.ltb_lt; assumption]. }
  cbn [set_controller heldNotes activeNotes].
  rewrite (release_all _ _ [] Hlen Hheld). reflexivity.
Qed.

End ChannelUpdate.

Section ChannelInvariant.

Import Codec Channel Spec.

Lemma complete_frame_bytes (m : MIDIMessage) :
  complete_frame m = true →
  msg_status m = NoteOff ∨ msg_status m = NoteOn ∨ msg_status m = ControlChange →
  data_byte (note m) = true ∧ data_byte (value m) = true.
Proof.
  unfold complete_frame. intros Hc Hs.
  assert (Hset : (msg_status m =? NoteOff) || (msg_status m =? NoteOn)
                 || (msg_status m =? KeyPressure) || (msg_status m =? ControlChange)
                 || (msg_status m =? PitchBend) = true).
  { destruct Hs as [->|[->| ->]]; reflexivity. }
  cbv zeta in Hc. rewrite Hset in Hc.
  apply andb_prop in Hc as [Hc H2]. apply andb_prop in Hc as [_ H1].
  split; assumption.
Qed.

Lemma channel_inv_new (ch : Z) : channel_inv (new_MIDIChannelState ch).
Proof.
  split; [reflexivity|]. split; [constructor | reflexivity].
Qed.

Lemma channel_inv_reset (st : MIDIChannelState) :
  channel_inv st → channel_inv (reset st).
Proof.
  intros (Hlen & _ & _). split; [|split].
  - unfold reset. cbn [activeNotes].
    rewrite length_app, length_replicate, length_drop. lia.
  - constructor.
  - reflexivity.
Qed.

(** On a complete frame [update] returns, and what every channel object
    satisfies is kept. *)
Lemma update_complete_inv (st : MIDIChannelState) (m : MIDIMessage) :
  channel_inv st → complete_frame m = true →
  ∃ st' out, update st m = Returned st' out ∧ channel_inv st'.
Proof.
  intros (Hlen & Hheld & Hinv) Hc.
  destruct (Z.eq_dec (msg_status m) NoteOn) as [Hon|Hnon].
  { destruct (complete_frame_bytes m Hc ltac:(auto)) as [Hn _].
    apply data_byte_range in Hn as (n & Hn & Hr).
    destruct (row_exists _ n Hlen Hr) as (q & _ & Hq).
    eexists _, _. split; [apply (update_NoteOn st m n q); assumption|].
    split; [|split]; cbn [set_activeNotes activeNotes heldNotes]; try assumption.
    unfold push_row. rewrite length_insert. assumption. }
  destruct (Z.eq_dec (msg_status m) NoteOff) as [Hoff|Hnoff].
  { destruct (complete_frame_bytes m Hc ltac:(auto)) as [Hn _].
    destruct (holdOn st) eqn:Hh.
    - eexists _, _. split; [apply update_NoteOff_hold; assumption|].
      split; [|split]; cbn [set_heldNotes activeNotes heldNotes]; try assumption.
      + apply Forall_app. split; [assumption | repeat constructor; assumption].
      + change (holdOn (set_heldNotes st (heldNotes st ++ [m]))) with (holdOn st).
        rewrite Hh. discriminate.
    - apply data_byte_range in Hn as (n & Hn & Hr).
      destruct (row_exists _ n Hlen Hr) as (q & _ & Hq).
      eexists _, _. split; [apply (update_NoteOff_free st m n q); assumption|].
      split; [|split]; cbn [set_activeNotes activeNotes heldNotes]; try assumption.
      * unfold shift_row. rewrite length_insert. assumption.
      * intros _. apply Hinv. reflexivity. }
  destruct (Z.eq_dec (msg_status m) ControlChange) as [Hcc|Hncc].
  { destruct (complete_frame_bytes m Hc ltac:(auto)) as [Hn Hv].
    apply data_byte_range in Hn as (c & Hcn & Hcr).
    apply data_byte_range in Hv as (v & Hvn & Hvr).
    change (note m) with (Codec.controller m) in Hcn.
    destruct (decide (c = 64 ∧ v < 64)) as [[-> Hlt]|Hkeep].
    - eexists _, _.
      split; [apply (update_ControlChange_release st m v); assumption|].
      split; [|split]; cbn [activeNotes heldNotes]; try constructor.
      apply foldl_pop_oldest_length_eq. assumption.
    - eexists _, _. split.
      + apply update_ControlChange_keep; [assumption|].
        rewrite Hcn, Hvn. apply andb_false_iff.
        destruct (decide (c = 64)) as [->|Hne].
        * right. apply Z.ltb_ge. lia.
        * left. apply strict_eq_false. congruence.
      + split; [|split]; cbn [set_controller activeNotes heldNotes]; try assumption.
        unfold holdOn. cbn [set_controller Channel.controller].
        rewrite Hcn, Hvn. destruct (decide (c = 64)) as [->|Hne].
        * rewrite table_get_insert. intros Hge.
          apply Z.leb_gt in Hge. exfalso. apply Hkeep. split; [reflexivity | lia].
        * rewrite table_get_insert_ne by congruence. exact Hinv. }
  exists (state_of (update st m)), (notified_of (update st m)).
  unfold update. cbv zeta.
  rewrite (proj2 (Z.eqb_neq _ _) Hnon), (proj2 (Z.eqb_neq _ _) Hnoff),
    (proj2 (Z.eqb_neq _ _) Hncc).
  destruct (msg_status m =? KeyPressure);
    [|destruct (msg_status m =? PitchBend);
      [|destruct (msg_status m =? ChannelPressure)]];
    (split; [reflexivity|]); (split; [|split]); assumption.
Qed.

End ChannelInvariant.

Section ChannelClaims.

Import Codec Channel Spec.

Lemma run_inv (cs : list call) (st : MIDIChannelState) :
  channel_inv st → forallb complete_call cs = true → channel_inv (run st cs).
Proof.
  revert st. induction cs as [|c cs IH]; intros st Hinv Hcs; [exact Hinv|].
  simpl in Hcs. apply andb_prop in Hcs as [Hc Hcs].
  change (run st (c :: cs)) with (run (do_call st c) cs).
  apply IH; [|assumption].
  destruct c as [m|]; simpl.
  - destruct (update_complete_inv st m Hinv Hc) as (st' & out & -> & Hinv').
    exact Hinv'.
  - apply channel_inv_reset. assumption.
Qed.

Lemma row_insert_same (an : list (list MIDIMessage)) (n : Z) q q' :
  0 ≤ n → row an (Some n) = Some q →
  row (<[Z.to_nat n := q']> an) (Some n) = Some q'.
Proof.
  unfold row. intros Hn. destruct (Z.leb_spec 0 n); [|lia].
  intros Hq. apply list_lookup_insert_eq. eapply lookup_lt_Some. eassumption.
Qed.

Lemma row_insert_other (an : list (list MIDIMessage)) (n k : Z) q' :
  0 ≤ n → 0 ≤ k → k ≠ n →
  row (<[Z.to_nat n := q']> an) (Some k) = row an (Some k).
Proof.
  unfold row. intros Hn Hk Hne. destruct (Z.leb_spec 0 k); [|lia].
  apply list_lookup_insert_ne. lia.
Qed.

(** C2. The occurrences of a note form a queue.  On a channel whose 128
    queues exist, Note-On for note n appends the message to the queue of
    n and leaves the other queues alone; with hold off, Note-Off for n
    removes the oldest entry of that queue and leaves the others alone.
    From a fresh channel, NoteOn(60), NoteOn(60), NoteOff(60) gives queue
    lengths 1, 2, 1, and the entry that stays is the second Note-On. *)
Theorem note_occurrences_are_a_queue :
  (∀ st m n,
     length (activeNotes st) = 128%nat → 0 ≤ n < 128 →
     msg_status m = NoteOn → note m = Some n →
     ∃ q st',
       row (activeNotes st) (Some n) = Some q
       ∧ update st m = Returned st' [m]
       ∧ row (activeNotes st') (Some n) = Some (q ++ [m])
       ∧ (∀ k, 0 ≤ k → k ≠ n → row (activeNotes st') (Some k) = row (activeNotes st) (Some k))
       ∧ heldNotes st' = heldNotes st)
  ∧ (∀ st m n,
       length (activeNotes st) = 128%nat → 0 ≤ n < 128 → holdOn st = false →
       msg_status m = NoteOff → note m = Some n →
       ∃ q st',
         row (activeNotes st) (Some n) = Some q
         ∧ update st m = Returned st' [m]
         ∧ row (activeNotes st') (Some n) = Some (tail q)
         ∧ (∀ k, 0 ≤ k → k ≠ n → row (activeNotes st') (Some k) = row (activeNotes st) (Some k))
         ∧ heldNotes st' = heldNotes st)
  ∧ (∀ ch on1 on2 off,
       msg_status on1 = NoteOn → note on1 = Some 60 →
       msg_status on2 = NoteOn → note on2 = Some 60 →
       msg_status off = NoteOff → note off = Some 60 →
       let s0 := new_MIDIChannelState ch in
       row (activeNotes (run s0 [Update on1])) (Some 60) = Some [on1]
       ∧ row (activeNotes (run s0 [Update on1; Update on2])) (Some 60) = Some [on1; on2]
       ∧ row (activeNotes (run s0 [Update on1; Update on2; Update off])) (Some 60)
         = Some [on2]).
Proof.
  assert (Hon : ∀ st m n,
     length (activeNotes st) = 128%nat → 0 ≤ n < 128 →
     msg_status m = NoteOn → note m = Some n →
     ∃ q st',
       row (activeNotes st) (Some n) = Some q
       ∧ update st m = Returned st' [m]
       ∧ row (activeNotes st') (Some n) = Some (q ++ [m])
       ∧ (∀ k, 0 ≤ k → k ≠ n → row (activeNotes st') (Some k) = row (activeNotes st) (Some k))
       ∧ heldNotes st' = heldNotes st).
  { intros st m n Hlen Hn Hs Hnote.
    destruct (row_exists _ n Hlen Hn) as (q & _ & Hq).
    exists q. eexists. split; [exact Hq|].
    split; [apply (update_NoteOn st m n q); assumption|].
    cbn [set_activeNotes activeNotes heldNotes]. unfold push_row.
    split; [apply (row_insert_same _ n q); [lia | assumption]|].
    split; [|reflexivity].
    intros k Hk Hne. apply row_insert_other; lia. }
  assert (Hoff : ∀ st m n,
       length (activeNotes st) = 128%nat → 0 ≤ n < 128 → holdOn st = false →
       msg_status m = NoteOff → note m = Some n →
       ∃ q st',
         row (activeNotes st) (Some n) = Some q
         ∧ update st m = Returned st' [m]
         ∧ row (activeNotes st') (Some n) = Some (tail q)
         ∧ (∀ k, 0 ≤ k → k ≠ n → row (activeNotes st') (Some k) = row (activeNotes st) (Some k))
         ∧ heldNotes st' = heldNotes st).
  { intros st m n Hlen Hn Hh Hs Hnote.
    destruct (row_exists _ n Hlen Hn) as (q & _ & Hq).
    exists q. eexists. split; [exact Hq|].
    split; [apply (update_NoteOff_free st m n q); assumption|].
    cbn [set_activeNotes activeNotes heldNotes]. unfold shift_row.
    split; [apply (row_insert_same _ n q); [lia | assumption]|].
    split; [|reflexivity].
    intros k Hk Hne. apply row_insert_other; lia. }
  split; [exact Hon|]. split; [exact Hoff|].
  intros ch on1 on2 off Hs1 Hn1 Hs2 Hn2 Hs3 Hn3 s0.
  assert (E1 : update s0 on1
               = Returned (set_activeNotes s0 (push_row (activeNotes s0) 60 [] on1)) [on1]).
  { apply update_NoteOn; [assumption | assumption | reflexivity]. }
  set (s1 := set_activeNotes s0 (push_row (activeNotes s0) 60 [] on1)) in *.
  assert (R1 : row (activeNotes s1) (Some 60) = Some [on1]) by reflexivity.
  assert (E2 : update s1 on2
               = Returned (set_activeNotes s1 (push_row (activeNotes s1) 60 [on1] on2)) [on2]).
  { apply update_NoteOn; assumption. }
  set (s2 := set_activeNotes s1 (push_row (activeNotes s1) 60 [on1] on2)) in *.
  assert (R2 : row (activeNotes s2) (Some 60) = Some [on1; on2]) by reflexivity.
  assert (H2 : holdOn s2 = false) by exact (holdOn_new ch).
  assert (E3 : update s2 off
               = Returned (set_activeNotes s2 (shift_row (activeNotes s2) 60 [on1; on2])) [off]).
  { apply update_NoteOff_free; assumption. }
  unfold run; cbn [foldl do_call]. rewrite E1; cbn [state_of].
  split; [exact R1|]. rewrite E2; cbn [state_of].
  split; [exact R2|]. rewrite E3; cbn [state_of].
  reflexivity.
Qed.

End ChannelClaims.

Section SustainClaims.

Import Codec Channel Spec.

Lemma note_occurrences_are_a_queue_witness :
  let on := makeNoteOn true 0 0 60 100 in
  let off := makeNoteOff true 0 0 60 0 in
  row (activeNotes (run (new_MIDIChannelState 0) [Update on; Update on; Update off]))
    (Some 60) = Some [on].
Proof.
  intros on off.
  apply (proj2 (proj2 note_occurrences_are_a_queue) 0 on on off); reflexivity.
Defined.

(** The release, note by note: the queue of note [n] loses as many entries
    from its front as there are held Note-Offs for [n]. *)
Lemma release_pops_oldest (held : list MIDIMessage) (an : list (list MIDIMessage))
    (n : Z) (q : list MIDIMessage) :
  length an = 128%nat →
  Forall (fun h => data_byte (note h) = true) held →
  0 ≤ n < 128 → row an (Some n) = Some q →
  row (foldl pop_oldest an held) (Some n) = Some (drop (held_count n held) q).
Proof.
  revert an q. induction held as [|h held IH]; intros an q Hlen Hheld Hn Hq.
  - exact Hq.
  - apply Forall_cons in Hheld as [Hh Hheld].
    apply data_byte_range in Hh as (z & Hz & Hr).
    destruct (row_exists an z Hlen Hr) as (qz & _ & Hqz).
    cbn [foldl]. unfold pop_oldest at 2. rewrite Hz, Hqz. unfold shift_row.
    unfold held_count. cbn [List.filter]. fold (held_count n held).
    destruct (decide (z = n)) as [->|Hne].
    + assert (qz = q) by congruence. subst qz.
      rewrite Hz, bool_decide_eq_true_2 by reflexivity. cbn [length].
      rewrite (IH (<[Z.to_nat n := tail q]> an) (tail q)).
      * f_equal. destruct q as [|x q]; cbn [tail]; [rewrite !drop_nil|]; reflexivity.
      * rewrite length_insert. assumption.
      * assumption.
      * assumption.
      * apply (row_insert_same _ n q); [lia | assumption].
    + rewrite Hz, bool_decide_eq_false_2 by congruence.
      apply IH; try assumption.
      * rewrite length_insert. assumption.
      * rewrite row_insert_other by lia. assumption.
Qed.

(** C1. While hold is on, a Note-Off is appended to the held queue and no
    note queue is popped.  A Control-Change that sets controller 64 below
    64 releases the held Note-Offs in the order they were deferred: the
    observers are notified of them in that order, the queue of every note
    loses exactly as many of its oldest entries as there were held
    Note-Offs for that note (the younger entries stay, in order), and the
    held queue is left empty.  For NoteOn(60), CC(64, on), NoteOff(60),
    CC(64, off) on a fresh channel, note 60 is still outstanding after the
    third message and not after the fourth; with two Note-Ons before the
    hold, the release removes the first and keeps the second. *)
Theorem sustain_defers_note_off :
  (∀ st m,
     msg_status m = NoteOff → holdOn st = true →
     ∃ st',
       update st m = Returned st' []
       ∧ heldNotes st' = heldNotes st ++ [m]
       ∧ activeNotes st' = activeNotes st
       ∧ holdOn st' = true)
  ∧ (∀ st m v,
       length (activeNotes st) = 128%nat →
       Forall (fun h => data_byte (note h) = true) (heldNotes st) →
       msg_status m = ControlChange →
       Codec.controller m = Some 64 → value m = Some v → v < 64 →
       ∃ st',
         update st m = Returned st' (heldNotes st ++ [m])
         ∧ heldNotes st' = []
         ∧ length (activeNotes st') = 128%nat
         ∧ (∀ n q, 0 ≤ n < 128 → row (activeNotes st) (Some n) = Some q →
              row (activeNotes st') (Some n)
              = Some (drop (held_count n (heldNotes st)) q))
         ∧ holdOn st' = false)
  ∧ (∀ ch on cc_on off cc_off v_on v_off,
       msg_status on = NoteOn → note on = Some 60 →
       msg_status cc_on = ControlChange →
       Codec.controller cc_on = Some 64 → value cc_on = Some v_on → 64 ≤ v_on →
       msg_status off = NoteOff → note off = Some 60 →
       msg_status cc_off = ControlChange →
       Codec.controller cc_off = Some 64 → value cc_off = Some v_off → v_off < 64 →
       let s3 := run (new_MIDIChannelState ch) [Update on; Update cc_on; Update off] in
       let s4 := run (new_MIDIChannelState ch)
                   [Update on; Update cc_on; Update off; Update cc_off] in
       row (activeNotes s3) (Some 60) = Some [on]
       ∧ heldNotes s3 = [off]
       ∧ row (activeNotes s4) (Some 60) = Some []
       ∧ heldNotes s4 = [])
  ∧ (∀ ch on1 on2 cc_on off cc_off v_on v_off,
       msg_status on1 = NoteOn → note on1 = Some 60 →
       msg_status on2 = NoteOn → note on2 = Some 60 →
       msg_status cc_on = ControlChange →
       Codec.controller cc_on = Some 64 → value cc_on = Some v_on → 64 ≤ v_on →
       msg_status off = NoteOff → note off = Some 60 →
       msg_status cc_off = ControlChange →
       Codec.controller cc_off = Some 64 → value cc_off = Some v_off → v_off < 64 →
       let s4 := run (new_MIDIChannelState ch)
                   [Update on1; Update on2; Update cc_on; Update off] in
       let s5 := run (new_MIDIChannelState ch)
                   [Update on1; Update on2; Update cc_on; Update off; Update cc_off] in
       row (activeNotes s4) (Some 60) = Some [on1; on2]
       ∧ heldNotes s4 = [off]
       ∧ row (activeNotes s5) (Some 60) = Some [on2]
       ∧ heldNotes s5 = []).
Proof.
  assert (Hrelease : ∀ st m v,
       length (activeNotes st) = 128%nat →
       Forall (fun h => data_byte (note h) = true) (heldNotes st) →
       msg_status m = ControlChange →
       Codec.controller m = Some 64 → value m = Some v → v < 64 →
       ∃ st',
         update st m = Returned st' (heldNotes st ++ [m])
         ∧ heldNotes st' = []
         ∧ length (activeNotes st') = 128%nat
         ∧ (∀ n q, 0 ≤ n < 128 → row (activeNotes st) (Some n) = Some q →
              row (activeNotes st') (Some n)
              = Some (drop (held_count n (heldNotes st)) q))
         ∧ holdOn st' = false).
  { intros st m v Hlen Hheld Hs Hc Hv Hlt.
    eexists. split; [apply (update_ControlChange_release st m v); assumption|].
    cbn [heldNotes activeNotes].
    split; [reflexivity|].
    split; [apply foldl_pop_oldest_length_eq; assumption|].
    split; [intros n q Hn Hq; apply release_pops_oldest; assumption|].
    unfold holdOn. cbn [Channel.controller]. rewrite table_get_insert.
    apply Z.leb_gt. assumption. }
  (* The state after the Note-Ons, the hold switch and the deferred Note-Off. *)
  assert (Hseq : ∀ s q cc_on off cc_off v_on v_off,
       length (activeNotes s) = 128%nat → heldNotes s = [] →
       row (activeNotes s) (Some 60) = Some q →
       msg_status cc_on = ControlChange →
       Codec.controller cc_on = Some 64 → value cc_on = Some v_on → 64 ≤ v_on →
       msg_status off = NoteOff → note off = Some 60 →
       msg_status cc_off = ControlChange →
       Codec.controller cc_off = Some 64 → value cc_off = Some v_off → v_off < 64 →
       row (activeNotes (run s [Update cc_on; Update off])) (Some 60) = Some q
       ∧ heldNotes (run s [Update cc_on; Update off]) = [off]
       ∧ row (activeNotes (run s [Update cc_on; Update off; Update cc_off])) (Some 60)
         = Some (drop 1 q)
       ∧ heldNotes (run s [Update cc_on; Update off; Update cc_off]) = []).
  { intros s q cc_on off cc_off v_on v_off Hlen Hheld Hq
      Hs2 Hc2 Hv2 Hon Hs3 Hn3 Hs4 Hc4 Hv4 Hoff.
    assert (E2 : update s cc_on
                 = Returned (set_controller s
                               (<[Codec.controller cc_on := value cc_on]> (Channel.controller s)))
                     [cc_on]).
    { apply update_ControlChange_keep; [assumption|].
      rewrite Hc2, Hv2. apply andb_false_iff. right. apply Z.ltb_ge. assumption. }
    set (s2 := set_controller s _) in *.
    assert (H2 : holdOn s2 = true).
    { unfold holdOn, s2. cbn [set_controller Channel.controller].
      rewrite Hc2, Hv2, table_get_insert. apply Z.leb_le. assumption. }
    assert (E3 : update s2 off = Returned (set_heldNotes s2 (heldNotes s2 ++ [off])) []).
    { apply update_NoteOff_hold; assumption. }
    set (s3 := set_heldNotes s2 (heldNotes s2 ++ [off])) in *.
    assert (R3 : row (activeNotes s3) (Some 60) = Some q) by exact Hq.
    assert (Q3 : heldNotes s3 = [off]).
    { unfold s3, s2. cbn [set_heldNotes set_controller heldNotes]. rewrite Hheld.
      reflexivity. }
    assert (L3 : length (activeNotes s3) = 128%nat) by exact Hlen.
    destruct (Hrelease s3 cc_off v_off) as (s4 & E4 & Q4 & _ & A4 & _);
      try assumption.
    { rewrite Q3. repeat constructor. rewrite Hn3. reflexivity. }
    assert (Hcount : held_count 60 (heldNotes s3) = 1%nat).
    { rewrite Q3. unfold held_count. cbn [List.filter].
      rewrite Hn3, bool_decide_eq_true_2 by reflexivity. reflexivity. }
    assert (Er3 : run s [Update cc_on; Update off] = s3).
    { unfold run. cbn [foldl do_call]. rewrite E2; cbn [state_of]. fold s2.
      rewrite E3. reflexivity. }
    assert (Er4 : run s [Update cc_on; Update off; Update cc_off] = s4).
    { unfold run. cbn [foldl do_call]. rewrite E2; cbn [state_of]. fold s2.
      rewrite E3; cbn [state_of]. fold s3. rewrite E4. reflexivity. }
    rewrite Er3, Er4. split; [exact R3|]. split; [exact Q3|]. split; [|exact Q4].
    rewrite (A4 60 q ltac:(lia) R3), Hcount. reflexivity. }
  split; [|split; [exact Hrelease|split]].
  - intros st m Hs Hh. eexists.
    split; [apply update_NoteOff_hold; assumption|].
    repeat split. exact Hh.
  - intros ch on cc_on off cc_off v_on v_off
      Hs1 Hn1 Hs2 Hc2 Hv2 Hon Hs3 Hn3 Hs4 Hc4 Hv4 Hoff s3 s4.
    set (s0 := new_MIDIChannelState ch).
    assert (E1 : update s0 on
                 = Returned (set_activeNotes s0 (push_row (activeNotes s0) 60 [] on)) [on]).
    { apply update_NoteOn; [assumption | assumption | reflexivity]. }
    set (s1 := set_activeNotes s0 (push_row (activeNotes s0) 60 [] on)) in *.
    assert (Es3 : s3 = run s1 [Update cc_on; Update off]).
    { unfold s3, run. cbn [foldl do_call]. fold s0. rewrite E1. reflexivity. }
    assert (Es4 : s4 = run s1 [Update cc_on; Update off; Update cc_off]).
    { unfold s4, run. cbn [foldl do_call]. fold s0. rewrite E1. reflexivity. }
    rewrite Es3, Es4.
    apply (Hseq s1 [on] cc_on off cc_off v_on v_off); try assumption; reflexivity.
  - intros ch on1 on2 cc_on off cc_off v_on v_off
      Hs1 Hn1 Hs1' Hn1' Hs2 Hc2 Hv2 Hon Hs3 Hn3 Hs4 Hc4 Hv4 Hoff s4 s5.
    set (s0 := new_MIDIChannelState ch).
    assert (E1 : update s0 on1
                 = Returned (set_activeNotes s0 (push_row (activeNotes s0) 60 [] on1)) [on1]).
    { apply update_NoteOn; [assumption | assumption | reflexivity]. }
    set (s1 := set_activeNotes s0 (push_row (activeNotes s0) 60 [] on1)) in *.
    assert (E1' : update s1 on2
                  = Returned (set_activeNotes s1 (push_row (activeNotes s1) 60 [on1] on2))
                      [on2]).
    { apply update_NoteOn; [assumption | assumption | reflexivity]. }
    set (s2 := set_activeNotes s1 (push_row (activeNotes s1) 60 [on1] on2)) in *.
    assert (Es4 : s4 = run s2 [Update cc_on; Update off]).
    { unfold s4, run. cbn [foldl do_call]. fold s0. rewrite E1; cbn [state_of].
      fold s1. rewrite E1'. reflexivity. }
    assert (Es5 : s5 = run s2 [Update cc_on; Update off; Update cc_off]).
    { unfold s5, run. cbn [foldl do_call]. fold s0. rewrite E1; cbn [state_of].
      fold s1. rewrite E1'. reflexivity. }
    rewrite Es4, Es5.
    apply (Hseq s2 [on1; on2] cc_on off cc_off v_on v_off); try assumption; reflexivity.
Qed.

Lemma sustain_defers_note_off_witness :
  let on1 := makeNoteOn true 0 0 60 100 in
  let on2 := makeNoteOn true 0 0 60 90 in
  let cc_on := makeControlChange true 0 0 64 127 in
  let off := makeNoteOff true 0 0 60 0 in
  let cc_off := makeControlChange true 0 0 64 0 in
  row (activeNotes (run (new_MIDIChannelState 0)
                      [Update on1; Update on2; Update cc_on; Update off]))
    (Some 60) = Some [on1; on2]
  ∧ heldNotes (run (new_MIDIChannelState 0)
                 [Update on1; Update on2; Update cc_on; Update off]) = [off]
  ∧ row (activeNotes (run (new_MIDIChannelState 0)
                        [Update on1; Update on2; Update cc_on; Update off; Update cc_off]))
      (Some 60) = Some [on2]
  ∧ heldNotes (run (new_MIDIChannelState 0)
                 [Update on1; Update on2; Update cc_on; Update off; Update cc_off]) = [].
Proof.
  intros on1 on2 cc_on off cc_off.
  apply (proj2 (proj2 (proj2 sustain_defers_note_off)) 0 on1 on2 cc_on off cc_off 127 0);
    first [reflexivity | lia].
Defined.



End SustainClaims.

(** ** The exchange *)

Section ExchangeProofs.

Import Codec Exchange Spec.

(** No method assigns the two guard flags of [start] or the event list. *)
Lemma startExchangeEvent_guards (ex : MIDIExchange) :
  guards (exchange_of (startExchangeEvent ex)) = guards ex.
Proof.
  unfold startExchangeEvent.
  destruct (_exchangeEvents ex !! _eventIndex ex); reflexivity.
Qed.

Lemma settle_guards (ex : MIDIExchange) (s : settlement) :
  guards (exchange_of (settle ex s)) = guards ex.
Proof. unfold settle; simpl. destruct (_resolve ex); reflexivity. Qed.

Lemma start_guards (ex : MIDIExchange) :
  guards (exchange_of (fst (start ex))) = guards ex.
Proof.
  unfold start.
  destruct (_isRunning ex) eqn:Hr; [reflexivity|].
  destruct (_isCompleted ex) eqn:Hc; [reflexivity|].
  cbn [_exchangeEvents].
  destruct (length (_exchangeEvents ex) =? 0)%nat.
  - unfold guards; simpl. rewrite Hr, Hc. reflexivity.
  - cbn [fst]. rewrite startExchangeEvent_guards.
    unfold guards; simpl. rewrite Hr, Hc. reflexivity.
Qed.

Lemma onMidiMessage_guards (ex : MIDIExchange) (frame : list Z) :
  guards (exchange_of (onMidiMessage ex frame)) = guards ex.
Proof.
  unfold onMidiMessage.
  destruct (match _requiredResponses ex with Some _ => _ | None => _ end)
    as [[responses required] completed].
  destruct completed; [|reflexivity].
  match goal with |- context [if ?c then _ else _] => destruct c end.
  - rewrite settle_guards. reflexivity.
  - rewrite startExchangeEvent_guards. reflexivity.
Qed.

Lemma step_guards (ex : MIDIExchange) (e : event) : guards (step ex e) = guards ex.
Proof.
  destruct e as [|frame|h]; simpl.
  - apply start_guards.
  - unfold deliver. destruct (listening ex); [apply onMidiMessage_guards | reflexivity].
  - unfold timeout_fires. destruct (bool_decide _); [|reflexivity].
    rewrite settle_guards. reflexivity.
Qed.

Lemma run_guards (es : list event) (ex : MIDIExchange) : guards (run ex es) = guards ex.
Proof.
  revert ex. induction es as [|e es IH]; intros ex; [reflexivity|].
  change (run ex (e :: es)) with (run (step ex e) es).
  rewrite IH. apply step_guards.
Qed.

(** Whatever happened to an exchange that was constructed with events,
    [start] does not fail on it. *)
Lemma start_never_fails (dev : MIDIDevice) (ev : IExchangeEvent)
    (evs : list IExchangeEvent) (msTimeout : option Z) (es : list event) :
  let ex := run (new_MIDIExchange dev (ev :: evs) msTimeout) es in
  snd (start ex) = Pending (next_promise ex).
Proof.
  intros ex.
  pose proof (run_guards es (new_MIDIExchange dev (ev :: evs) msTimeout)) as Hg.
  fold ex in Hg. unfold guards in Hg. cbn in Hg.
  injection Hg as Hr Hc He.
  unfold start. rewrite Hr, Hc. cbn [_exchangeEvents]. rewrite He. reflexivity.
Qed.

(** C4. [start] rejects an exchange with no events, but the guards
    against a second call test two flags that are never assigned: called
    again while the first run waits for its response, or after the
    exchange has completed, [start] does not fail.  It hands out a new
    promise, takes the resolver of the first one away, goes back to event
    0, sends the first request again and arms another timeout.  After any
    history of calls, frames and timeouts both flags are still false and
    [start] is accepted. *)
Theorem second_start_is_accepted (dev : MIDIDevice) (ev : IExchangeEvent)
    (evs : list IExchangeEvent) (msTimeout : option Z) (frame : list Z) :
  let ex0 := new_MIDIExchange dev (ev :: evs) msTimeout in
  let ex1 := exchange_of (fst (start ex0)) in
  let ex2 := exchange_of (fst (start ex1)) in
  snd (start (new_MIDIExchange dev [] msTimeout)) = Failed NoExchangeEvents
  ∧ snd (start ex0) = Pending 0
  ∧ sent ex1 = [request ev] ∧ timers ex1 = [0%nat] ∧ _resolve ex1 = Some 0%nat
  ∧ snd (start ex1) = Pending 1
  ∧ sent ex2 = [request ev; request ev]
  ∧ timers ex2 = [0%nat; 1%nat]
  ∧ _resolve ex2 = Some 1%nat
  ∧ (let done := exchange_of (deliver (exchange_of (fst (start
                    (new_MIDIExchange dev [mkEvent (request ev) NoResponse] msTimeout))))
                    frame) in
     settled done = [(0%nat, Resolved)]
     ∧ snd (start done) = Pending 1
     ∧ sent (exchange_of (fst (start done))) = [request ev; request ev])
  ∧ (∀ es, _isRunning (run ex0 es) = false
           ∧ _isCompleted (run ex0 es) = false
           ∧ snd (start (run ex0 es)) = Pending (next_promise (run ex0 es))).
Proof.
  intros ex0 ex1 ex2. subst ex0 ex1 ex2.
  repeat apply conj;
    try (destruct msTimeout as [[| |]|]; reflexivity).
  intros es.
  pose proof (run_guards es (new_MIDIExchange dev (ev :: evs) msTimeout)) as Hg.
  unfold guards in Hg. cbn in Hg. injection Hg as Hr Hc _.
  split; [exact Hr|]. split; [exact Hc|].
  apply start_never_fails.
Qed.



End ExchangeProofs.

Section MatcherDefaults.

Import Codec Exchange Spec.




End MatcherDefaults.

Section IncompleteFrames.

Import Codec Channel.

(** Outside the frames the invariant is stated for: a two-byte
    Control-Change frame for controller 64 stores [undefined] as the value,
    which reads as hold off, and releases nothing. *)
Lemma short_control_change_releases_nothing :
  let off := makeNoteOff true 0 0 60 0 in
  let st := run (new_MIDIChannelState 0)
              [Update (makeNoteOn true 0 0 60 100);
               Update (makeControlChange true 0 0 64 127);
               Update off;
               Update (new_MIDIMessage true 0 [0xb0; 64] None)] in
  complete_frame (new_MIDIMessage true 0 [0xb0; 64] None) = false
  ∧ holdOn st = false ∧ heldNotes st = [off].
Proof. vm_compute. repeat split. Qed.


End IncompleteFrames.

(** * Further properties of the code *)

(** ** Classification, the channel setter and the remaining builders *)

Section ByteFields.

Import Codec Message.

(** The two nibbles of a byte, as arithmetic. *)
Lemma byte_nibbles (b : Z) :
  0 ≤ b < 256 → Z.land b 0xf0 = 16 * (b / 16) ∧ Z.land b 0x0f = b mod 16.
Proof.
  intros Hb.
  pose (P := fun b => (Z.land b 0xf0 =? 16 * (b / 16)) && (Z.land b 0x0f =? b mod 16)).
  assert (H : P b = true).
  { apply (Z_interval_forallb P 0 256); [vm_compute; reflexivity | lia]. }
  unfold P in H. apply andb_prop in H as [H1 H2].
  split; apply Z.eqb_eq; assumption.
Qed.

(** A status nibble joined with a channel nibble. *)
Lemma join_nibbles (hi lo : Z) :
  0 ≤ hi < 16 → 0 ≤ lo < 16 →
  Z.lor (16 * hi) lo = 16 * hi + lo.
Proof.
  intros Hhi Hlo.
  pose (P := fun hi => forallb (fun lo => Z.lor (16 * hi) lo =? 16 * hi + lo) (seqZ 0 16)).
  assert (H : P hi = true).
  { apply (Z_interval_forallb P 0 16); [vm_compute; reflexivity | lia]. }
  unfold P in H.
  apply Z.eqb_eq.
  apply (Z_interval_forallb (fun lo => Z.lor (16 * hi) lo =? 16 * hi + lo) 0 16 H). lia.
Qed.

(** X1. The first byte alone decides type and status: 0xF0 is sysex, a
    larger byte is a system message whose status is the byte itself, a
    smaller byte is a channel message whose status and channel are its two
    nibbles; an empty frame reads as a channel message with status 0. *)
Theorem first_byte_classification (b : Z) :
  0 ≤ b < 256 →
  (b = 0xf0 → type (Some b) = SysEx)
  ∧ (0xf0 < b → type (Some b) = System)
  ∧ (b < 0xf0 → type (Some b) = Channel)
  ∧ (0xf0 ≤ b → status (Some b) = b)
  ∧ (b < 0xf0 → status (Some b) = 16 * (b / 16)
                ∧ JS.band (Some b) 0x0f = b mod 16
                ∧ status (Some b) + JS.band (Some b) 0x0f = b)
  ∧ type None = Channel ∧ status None = 0.
Proof.
  intros Hb. destruct (byte_nibbles b Hb) as [Hhi Hlo].
  unfold type, status, JS.band, JS.strict_eq.
  change (default 0 (Some b)) with b. change (default 0 None) with 0.
  rewrite Hhi, Hlo.
  repeat apply conj; try reflexivity.
  - intros ->. reflexivity.
  - intros Hgt. rewrite bool_decide_eq_false_2 by (intros [=]; lia).
    replace (b / 16) with 15 by (apply Z.div_unique with (r := b - 240); lia).
    reflexivity.
  - intros Hlt. rewrite bool_decide_eq_false_2 by (intros [=]; lia).
    assert (b / 16 < 15) by (apply Z.div_lt_upper_bound; lia).
    destruct (Z.eqb_spec (16 * (b / 16)) 0xf0); [lia | reflexivity].
  - intros Hge.
    replace (b / 16) with 15 by (apply Z.div_unique with (r := b - 240); lia).
    reflexivity.
  - intros Hlt.
    assert (b / 16 < 15) by (apply Z.div_lt_upper_bound; lia).
    destruct (Z.eqb_spec (16 * (b / 16)) 0xf0); [lia|].
    repeat split. pose proof (Z.div_mod b 16 ltac:(lia)). lia.
Qed.

Lemma first_byte_classification_witness :
  type (Some 0x9c) = Channel ∧ status (Some 0x9c) = 0x90
  ∧ JS.band (Some 0x9c) 0x0f = 12.
Proof.
  destruct (first_byte_classification 0x9c ltac:(lia)) as (_ & _ & Ht & _ & Hs & _).
  split; [apply Ht; lia|].
  destruct (Hs ltac:(lia)) as (H1 & H2 & _).
  split; [exact H1 | exact H2].
Defined.

End ByteFields.

Section ChannelSetterAndBuilders.

Import Codec Message.

Lemma land_low4 (x : Z) : Z.land x 0x0f = x mod 16.
Proof. change 0x0f with (Z.ones 4). rewrite Z.land_ones by lia. reflexivity. Qed.

Lemma land_low7 (x : Z) : Z.land x 0x7f = x mod 128.
Proof. change 0x7f with (Z.ones 7). rewrite Z.land_ones by lia. reflexivity. Qed.

Lemma shiftr7 (x : Z) : Z.shiftr x 7 = x / 128.
Proof. rewrite Z.shiftr_div_pow2 by lia. reflexivity. Qed.

(** The byte made of status nibble [k] and channel [ch], and what the
    getters read from it. *)
Lemma status_byte (k ch : Z) :
  8 ≤ k < 15 → 0 ≤ ch < 16 →
  Z.lor (16 * k) ch mod 256 = 16 * k + ch
  ∧ type (Some (16 * k + ch)) = Channel
  ∧ status (Some (16 * k + ch)) = 16 * k
  ∧ JS.band (Some (16 * k + ch)) 0x0f = ch
  ∧ JS.band (Some (16 * k + ch)) 0xf0 = 16 * k.
Proof.
  intros Hk Hch.
  rewrite join_nibbles, Z.mod_small by lia.
  destruct (first_byte_classification (16 * k + ch) ltac:(lia))
    as (_ & _ & Ht & _ & Hs & _).
  destruct (Hs ltac:(lia)) as (H1 & H2 & _).
  assert (Hq : (16 * k + ch) / 16 = k) by (symmetry; apply Z.div_unique with (r := ch); lia).
  assert (Hr : (16 * k + ch) mod 16 = ch) by (symmetry; apply Z.mod_unique with (q := k); lia).
  rewrite Hq in H1. rewrite Hr in H2.
  repeat split; try assumption; try (apply Ht; lia).
  unfold JS.band. change (default 0 (Some (16 * k + ch))) with (16 * k + ch).
  rewrite (proj1 (byte_nibbles (16 * k + ch) ltac:(lia))), Hq. reflexivity.
Qed.

(** X2. The channel setter writes the low nibble of the first byte and
    nothing else: afterwards the channel reads as the given number modulo
    16, the other bytes and the time are as before, and setting the same
    channel again changes nothing.  On a channel message the status is kept;
    on a system message the status is the first byte, so the setter changes
    it.  An empty frame is left alone. *)
Theorem set_channel_writes_low_nibble :
  (∀ m ch b rest,
     data m = b :: rest → 0 ≤ b < 256 →
     let m' := set_channel m ch in
     data m' = (16 * (b / 16) + ch mod 16) :: rest
     ∧ time m' = time m
     ∧ channel m' = ch mod 16
     ∧ (b < 0xf0 → msg_status m' = msg_status m ∧ msg_type m' = Channel)
     ∧ (0xf0 ≤ b → msg_status m' = 0xf0 + ch mod 16)
     ∧ set_channel m' ch = m')
  ∧ (∀ m ch, data m = [] → set_channel m ch = m).
Proof.
  split.
  - intros m ch b rest Hd Hb m'.
    assert (Hc : 0 ≤ ch mod 16 < 16) by (apply Z.mod_pos_bound; lia).
    assert (Hq : 0 ≤ b / 16 < 16).
    { split; [apply Z.div_pos; lia | apply Z.div_lt_upper_bound; lia]. }
    set (b' := 16 * (b / 16) + ch mod 16).
    assert (Hb' : 0 ≤ b' < 256) by (unfold b'; lia).
    assert (Hq' : b' / 16 = b / 16).
    { unfold b'. symmetry. apply Z.div_unique with (r := ch mod 16); lia. }
    assert (Hr' : b' mod 16 = ch mod 16).
    { unfold b'. symmetry. apply Z.mod_unique with (q := b / 16); lia. }
    assert (Hm : ∀ c, set_channel (mkMessage (c :: rest) (time m)) ch
                      = mkMessage ((Z.lor (Z.land c 0xf0) (ch mod 16)) :: rest) (time m)).
    { intros c. unfold set_channel, JS.band, JS.at_; simpl. rewrite land_low4. reflexivity. }
    assert (Hm' : m' = mkMessage (b' :: rest) (time m)).
    { unfold m'. destruct m as [d t]. simpl in Hd. subst d. simpl (time _).
      rewrite Hm. rewrite (proj1 (byte_nibbles b Hb)), join_nibbles by lia.
      reflexivity. }
    rewrite Hm'.
    destruct (first_byte_classification b Hb) as (_ & _ & Ht & Hsys & Hch & _).
    destruct (first_byte_classification b' Hb') as (_ & _ & Ht' & Hsys' & Hch' & _).
    repeat apply conj; try reflexivity.
    + unfold channel, JS.at_; simpl (_ !! _).
      unfold JS.band. change (default 0 (Some b')) with b'.
      rewrite (proj2 (byte_nibbles b' Hb')). exact Hr'.
    + intros Hlt.
      assert (b / 16 < 15) by (apply Z.div_lt_upper_bound; lia).
      assert (Hlt' : b' < 0xf0) by (unfold b'; lia).
      unfold msg_status, msg_type, JS.at_. rewrite Hd. simpl (_ !! _).
      destruct (Hch Hlt) as (-> & _). destruct (Hch' Hlt') as (-> & _).
      rewrite Hq'. split; [reflexivity | apply Ht'; assumption].
    + intros Hge.
      assert (Hq15 : b / 16 = 15) by (symmetry; apply Z.div_unique with (r := b - 240); lia).
      unfold msg_status, JS.at_. simpl (_ !! _).
      rewrite Hsys' by (unfold b'; lia). unfold b'. lia.
    + rewrite Hm. rewrite (proj1 (byte_nibbles b' Hb')), Hq', join_nibbles by lia.
      reflexivity.
  - intros m ch Hd. unfold set_channel. rewrite Hd. reflexivity.
Qed.

Lemma set_channel_writes_low_nibble_witness :
  data (set_channel (mkMessage [0x93; 60; 100] 0) 21) = [0x95; 60; 100]
  ∧ channel (set_channel (mkMessage [0x93; 60; 100] 0) 21) = 5.
Proof.
  destruct (proj1 set_channel_writes_low_nibble (mkMessage [0x93; 60; 100] 0) 21
              0x93 [60; 100] eq_refl ltac:(lia)) as (H1 & _ & H2 & _).
  split; [exact H1 | exact H2].
Defined.

End ChannelSetterAndBuilders.

Section MoreBuilders.

Import Codec Message.

(** A frame whose first byte is not a Note-On status is kept by the
    constructor. *)
Lemma new_MIDIMessage_other_status (convert : bool) (now : Z) (d : list Z) (t : option Z) :
  JS.band (JS.at_ d 0) 0xf0 ≠ 0x90 → data (new_MIDIMessage convert now d t) = d.
Proof.
  intros Hs. unfold new_MIDIMessage; simpl.
  rewrite (proj2 (Z.eqb_neq _ _) Hs), andb_false_r. reflexivity.
Qed.

(** X3. The Note-Off, Control-Change and Program-Change builders: for a
    channel 0..15 and 7-bit data, the frame is status + channel followed by
    the data bytes, the constructor keeps it under either flag value, and
    the getters read back the type, status, channel and data. *)
Theorem channel_builders_decode (convert : bool) (now : Z) (t : option Z) (ch d1 d2 : Z) :
  0 ≤ ch < 16 → 0 ≤ d1 < 128 → 0 ≤ d2 < 128 →
  let off := new_MIDIMessage convert now (noteOff ch d1 d2) t in
  let cc := new_MIDIMessage convert now (controlChange ch d1 d2) t in
  let pc := new_MIDIMessage convert now (programChange ch d1) t in
  (data off = [0x80 + ch; d1; d2] ∧ msg_type off = Channel ∧ msg_status off = NoteOff
   ∧ channel off = ch ∧ note off = Some d1 ∧ velocity off = Some d2)
  ∧ (data cc = [0xb0 + ch; d1; d2] ∧ msg_type cc = Channel ∧ msg_status cc = ControlChange
     ∧ channel cc = ch ∧ controller cc = Some d1 ∧ value cc = Some d2)
  ∧ (data pc = [0xc0 + ch; d1] ∧ msg_type pc = Channel ∧ msg_status pc = ProgramChange
     ∧ channel pc = ch ∧ program pc = Some d1 ∧ velocity pc = None).
Proof.
  intros Hch H1 H2 off cc pc.
  assert (Hframe3 : ∀ k, 8 ≤ k < 15 → k ≠ 9 →
            let m := new_MIDIMessage convert now
                       (JS.Uint8Array [Z.lor (16 * k) ch; d1; d2]) t in
            data m = [16 * k + ch; d1; d2] ∧ msg_type m = Channel
            ∧ msg_status m = 16 * k ∧ channel m = ch).
  { intros k Hk Hk9 m.
    destruct (status_byte k ch Hk Hch) as (E1 & E2 & E3 & E4 & E5).
    assert (Hd : data m = [16 * k + ch; d1; d2]).
    { unfold m, JS.Uint8Array. cbn [map].
      rewrite E1, !Z.mod_small by lia.
      apply new_MIDIMessage_other_status.
      unfold JS.at_. simpl (_ !! _). rewrite E5. lia. }
    unfold msg_type, msg_status, channel. rewrite Hd. unfold JS.at_. simpl (_ !! _).
    repeat split; assumption. }
  split; [|split].
  - destruct (Hframe3 8 ltac:(lia) ltac:(lia)) as (Hd & Ht & Hs & Hc).
    change (16 * 8) with 0x80 in Hd, Hs.
    change (new_MIDIMessage convert now (JS.Uint8Array [Z.lor 128 ch; d1; d2]) t)
      with off in Hd, Ht, Hs, Hc.
    unfold note, velocity, JS.at_. rewrite Hd.
    repeat split; assumption.
  - destruct (Hframe3 11 ltac:(lia) ltac:(lia)) as (Hd & Ht & Hs & Hc).
    change (16 * 11) with 0xb0 in Hd, Hs.
    change (new_MIDIMessage convert now (JS.Uint8Array [Z.lor 176 ch; d1; d2]) t)
      with cc in Hd, Ht, Hs, Hc.
    unfold controller, value, JS.at_. rewrite Hd.
    repeat split; assumption.
  - destruct (status_byte 12 ch ltac:(lia) Hch) as (E1 & E2 & E3 & E4 & E5).
    assert (Hd : data pc = [0xc0 + ch; d1]).
    { unfold pc, programChange, ProgramChange, JS.Uint8Array. cbn [map].
      change 0xc0 with (16 * 12). rewrite E1, Z.mod_small by lia.
      apply new_MIDIMessage_other_status.
      unfold JS.at_. simpl (_ !! _). rewrite E5. lia. }
    unfold msg_type, msg_status, channel, program, velocity, JS.at_. rewrite Hd.
    simpl (_ !! _). change (192 + ch) with (16 * 12 + ch).
    repeat split; assumption.
Qed.

Lemma channel_builders_decode_witness :
  data (new_MIDIMessage true 0 (controlChange 3 64 127) None) = [0xb3; 64; 127]
  ∧ data (new_MIDIMessage true 0 (programChange 3 5) None) = [0xc3; 5].
Proof.
  destruct (channel_builders_decode true 0 None 3 64 127
              ltac:(lia) ltac:(lia) ltac:(lia)) as (_ & (H1 & _) & _).
  destruct (channel_builders_decode true 0 None 3 5 0
              ltac:(lia) ltac:(lia) ltac:(lia)) as (_ & _ & (H2 & _)).
  split; [exact H1 | exact H2].
Defined.

(** X4. The parameter-number builders are runs of Control-Change frames
    on the same channel: parameter MSB, parameter LSB, then the value (MSB
    then LSB in the 14-bit forms), each data byte cut to 7 bits; rpnNull
    selects parameter 0x7F 0x7F.  From the data bytes at positions 2, 5, 8
    and 11 of a 14-bit frame a receiver gets back the parameter and the
    value whenever they are below 16384. *)
Theorem parameter_number_frames (ch p v : Z) :
  rpn14 ch p v
  = controlChange ch RPN_MSB (p / 128 mod 128) ++ controlChange ch RPN_LSB (p mod 128)
    ++ controlChange ch DataEntry_MSB (v / 128 mod 128)
    ++ controlChange ch DataEntry_LSB (v mod 128)
  ∧ nrpn14 ch p v
    = controlChange ch NRPN_MSB (p / 128 mod 128) ++ controlChange ch NRPN_LSB (p mod 128)
      ++ controlChange ch DataEntry_MSB (v / 128 mod 128)
      ++ controlChange ch DataEntry_LSB (v mod 128)
  ∧ rpn7 ch p v
    = controlChange ch RPN_MSB (p / 128 mod 128) ++ controlChange ch RPN_LSB (p mod 128)
      ++ controlChange ch DataEntry_MSB (v mod 128)
  ∧ nrpn7 ch p v
    = controlChange ch NRPN_MSB (p / 128 mod 128) ++ controlChange ch NRPN_LSB (p mod 128)
      ++ controlChange ch DataEntry_MSB (v mod 128)
  ∧ rpnNull ch = controlChange ch RPN_MSB 0x7f ++ controlChange ch RPN_LSB 0x7f
  ∧ (0 ≤ p < 16384 → 0 ≤ v < 16384 →
     ∃ pm pl vm vl,
       rpn14 ch p v !! 2%nat = Some pm ∧ rpn14 ch p v !! 5%nat = Some pl
       ∧ rpn14 ch p v !! 8%nat = Some vm ∧ rpn14 ch p v !! 11%nat = Some vl
       ∧ pm * 128 + pl = p ∧ vm * 128 + vl = v
       ∧ 0 ≤ pm < 128 ∧ 0 ≤ pl < 128 ∧ 0 ≤ vm < 128 ∧ 0 ≤ vl < 128).
Proof.
  assert (Hbyte : ∀ x, (x mod 128) mod 256 = x mod 128).
  { intros x. pose proof (Z.mod_pos_bound x 128 ltac:(lia)). apply Z.mod_small. lia. }
  unfold rpn14, nrpn14, rpn7, nrpn7, rpnNull, controlChange, JS.Uint8Array.
  cbn [map app]. rewrite !land_low7, !shiftr7, !Hbyte.
  repeat apply conj; try reflexivity.
  intros Hp Hv.
  exists (p / 128 mod 128), (p mod 128), (v / 128 mod 128), (v mod 128).
  assert (Hp' : 0 ≤ p / 128 < 128).
  { split; [apply Z.div_pos; lia | apply Z.div_lt_upper_bound; lia]. }
  assert (Hv' : 0 ≤ v / 128 < 128).
  { split; [apply Z.div_pos; lia | apply Z.div_lt_upper_bound; lia]. }
  pose proof (Z.div_mod p 128 ltac:(lia)). pose proof (Z.div_mod v 128 ltac:(lia)).
  pose proof (Z.mod_pos_bound p 128 ltac:(lia)).
  pose proof (Z.mod_pos_bound v 128 ltac:(lia)).
  rewrite !(Z.mod_small (_ / 128) 128) by lia.
  repeat split; try reflexivity; lia.
Qed.

Lemma parameter_number_frames_witness :
  ∃ pm pl vm vl,
    rpn14 2 0x0105 8192 !! 2%nat = Some pm ∧ rpn14 2 0x0105 8192 !! 5%nat = Some pl
    ∧ rpn14 2 0x0105 8192 !! 8%nat = Some vm ∧ rpn14 2 0x0105 8192 !! 11%nat = Some vl
    ∧ pm * 128 + pl = 0x0105 ∧ vm * 128 + vl = 8192
    ∧ 0 ≤ pm < 128 ∧ 0 ≤ pl < 128 ∧ 0 ≤ vm < 128 ∧ 0 ≤ vl < 128.
Proof.
  apply (parameter_number_frames 2 0x0105 8192); lia.
Defined.

End MoreBuilders.

(** ** System-exclusive ids *)

Section SysExIds.

Import Codec Message Spec.

Lemma header_ok_wildcards (frame : list Z) (i j n : nat) :
  header_ok frame i j (replicate n 0xff) = true.
Proof.
  revert j. induction n as [|n IH]; intros j; [reflexivity|].
  simpl. apply IH.
Qed.

(** X5. In validateSysEx the device id 0x7f is the same as no device id,
    a header made only of 0xff bytes (of any length, also past the end of
    the frame) is the same as no header, and, for an id of one of the two
    documented shapes, a frame that is accepted stays accepted when bytes
    are appended to it. *)
Theorem validateSysEx_wildcards_and_extension :
  (∀ frame id header,
     validateSysEx frame id (Some 0x7f) header = validateSysEx frame id None header)
  ∧ (∀ frame id did n,
       validateSysEx frame id did (Some (replicate n 0xff))
       = validateSysEx frame id did None)
  ∧ (∀ frame rest id did header,
       id_shape id →
       validateSysEx frame id did header = true →
       validateSysEx (frame ++ rest) id did header = true).
Proof.
  split; [|split].
  - intros frame id header. unfold validateSysEx.
    destruct (negb _); [reflexivity|].
    destruct (match id with IdNum _ => _ | IdArr _ => _ end); reflexivity.
  - intros frame id did n. unfold validateSysEx.
    destruct (negb _); [reflexivity|].
    destruct (match id with IdNum _ => _ | IdArr _ => _ end) as [i|]; [|reflexivity].
    destruct (match did with Some _ => _ | None => false end); [reflexivity|].
    apply header_ok_wildcards.
  - intros frame rest id did header Hshape Hv.
    apply (validateSysEx_iff _ _ _ _ Hshape) in Hv.
    apply (validateSysEx_iff _ _ _ _ Hshape).
    destruct Hv as (H0 & Hid & Hdev & Hh).
    split; [|split; [|split]].
    + apply lookup_app_l_Some. exact H0.
    + intros k b Hk. apply lookup_app_l_Some. eauto.
    + intros d Hd Hne. apply lookup_app_l_Some. eauto.
    + intros h j b Hheader Hj Hb. apply lookup_app_l_Some. eauto.
Qed.

Lemma validateSysEx_wildcards_and_extension_witness :
  id_shape (IdNum 0x43)
  ∧ validateSysEx ([0xf0; 0x43; 0x10; 0x7e] ++ [0x06; 0x02; 0xf7])
      (IdNum 0x43) (Some 0x10) (Some [0x7e]) = true.
Proof.
  split; [exact I|].
  apply (proj2 (proj2 validateSysEx_wildcards_and_extension)
           [0xf0; 0x43; 0x10; 0x7e] [0x06; 0x02; 0xf7] (IdNum 0x43) (Some 0x10)
           (Some [0x7e]) I).
  reflexivity.
Defined.

Lemma take3_drop1_lookup (d : list Z) (k : nat) :
  (k < 3)%nat → take 3 (drop 1 d) !! k = d !! S k.
Proof.
  intros Hk. rewrite lookup_take_lt by assumption.
  rewrite lookup_drop. reflexivity.
Qed.

(** X6. The id getters and the matcher agree.  A frame is accepted
    against the manufacturer id and device id read from it; a frame that
    does not start with 0xF0 has neither id and is accepted against
    nothing; and a frame accepted against a non-zero single-byte id, or
    against a three-byte id with lead byte 0, reads back that id and the
    device id it was matched with. *)
Theorem sysex_getters_agree_with_match :
  (∀ m id, manufacturerId m = Some id →
           msg_validateSysEx m id (deviceId m) None = true)
  ∧ (∀ m, JS.at_ (data m) 0 ≠ Some 0xf0 →
          manufacturerId m = None ∧ deviceId m = None
          ∧ ∀ id did h, msg_validateSysEx m id did h = false)
  ∧ (∀ m n did h,
       n ≠ 0 → msg_validateSysEx m (IdNum n) did h = true →
       manufacturerId m = Some (IdNum n)
       ∧ ∀ d, did = Some d → d ≠ 0x7f → deviceId m = Some d)
  ∧ (∀ m x y did h,
       msg_validateSysEx m (IdArr [0; x; y]) did h = true →
       manufacturerId m = Some (IdArr [0; x; y])
       ∧ ∀ d, did = Some d → d ≠ 0x7f → deviceId m = Some d).
Proof.
  split; [|split; [|split]].
  - intros m id. unfold manufacturerId, deviceId, msg_validateSysEx, validateSysEx.
    destruct (JS.strict_eq (JS.at_ (data m) 0) (Some SystemExclusive)) eqn:H0;
      [|discriminate].
    cbn [negb].
    destruct (JS.strict_eq (JS.at_ (data m) 1) (Some 0)) eqn:H1.
    + intros [= <-]. unfold JS.at_ at 2 4 6.
      rewrite !take3_drop1_lookup by lia.
      unfold JS.strict_eq at 1 2 3. rewrite !bool_decide_eq_true_2 by reflexivity.
      cbn [negb orb].
      destruct (JS.at_ (data m) 4) as [d|] eqn:H4; [|reflexivity].
      unfold JS.strict_eq. rewrite bool_decide_eq_true_2 by reflexivity.
      rewrite andb_false_r. reflexivity.
    + destruct (JS.at_ (data m) 1) as [b|] eqn:Hb; [|discriminate].
      intros [= <-].
      unfold JS.strict_eq at 1. rewrite bool_decide_eq_true_2 by reflexivity.
      cbn [negb].
      destruct (JS.at_ (data m) 2) as [d|] eqn:H2; [|reflexivity].
      unfold JS.strict_eq. rewrite bool_decide_eq_true_2 by reflexivity.
      rewrite andb_false_r. reflexivity.
  - intros m H0.
    assert (E : JS.strict_eq (JS.at_ (data m) 0) (Some SystemExclusive) = false)
      by (apply strict_eq_false; exact H0).
    unfold manufacturerId, deviceId, msg_validateSysEx, validateSysEx.
    rewrite E. repeat split.
  - intros m n did h Hn Hv. unfold msg_validateSysEx in Hv.
    apply (validateSysEx_iff _ (IdNum n) _ _ I) in Hv.
    destruct Hv as (H0 & Hid & Hdev & _).
    specialize (Hid 0%nat n eq_refl). simpl in Hid, Hdev.
    unfold manufacturerId, deviceId, JS.at_, JS.strict_eq, SystemExclusive.
    rewrite H0, Hid.
    rewrite (bool_decide_eq_true_2 (Some 240 = Some 240)) by reflexivity.
    rewrite (bool_decide_eq_false_2 (Some n = Some 0)) by congruence.
    split; [reflexivity | exact Hdev].
  - intros m x y did h Hv. unfold msg_validateSysEx in Hv.
    apply (validateSysEx_iff _ (IdArr [0; x; y]) _ _ eq_refl) in Hv.
    destruct Hv as (H0 & Hid & Hdev & _).
    pose proof (Hid 0%nat 0 eq_refl) as H1.
    pose proof (Hid 1%nat x eq_refl) as H2.
    pose proof (Hid 2%nat y eq_refl) as H3.
    simpl in H1, H2, H3, Hdev.
    unfold manufacturerId, deviceId, JS.at_, JS.strict_eq, SystemExclusive.
    rewrite H0, H1.
    rewrite (bool_decide_eq_true_2 (Some 240 = Some 240)) by reflexivity.
    rewrite (bool_decide_eq_true_2 (Some 0 = Some 0)) by reflexivity.
    split; [|exact Hdev].
    cbn [negb]. do 2 f_equal.
    destruct (data m) as [|a0 [|a1 [|a2 [|a3 rest]]]]; try discriminate.
    simpl in H1, H2, H3. injection H1 as ->. injection H2 as ->. injection H3 as ->.
    reflexivity.
Qed.

Lemma sysex_getters_agree_with_match_witness :
  manufacturerId (mkMessage [0xf0; 0x00; 0x20; 0x29; 0x10; 0x7e] 0)
  = Some (IdArr [0; 0x20; 0x29])
  ∧ deviceId (mkMessage [0xf0; 0x00; 0x20; 0x29; 0x10; 0x7e] 0) = Some 0x10.
Proof.
  destruct (proj2 (proj2 (proj2 sysex_getters_agree_with_match))
              (mkMessage [0xf0; 0x00; 0x20; 0x29; 0x10; 0x7e] 0) 0x20 0x29
              (Some 0x10) None eq_refl) as [H1 H2].
  split; [exact H1|]. apply (H2 0x10 eq_refl). lia.
Defined.

End SysExIds.

(** ** More on the channel state *)

Section ChannelReset.

Import Codec Channel Spec Observed.

Lemma zero_loop_lookup (l : list Z) (t : table) (k : option Z) :
  foldl (fun acc i => <[Some i := Some 0]> acc) t l !! k
  = match k with
    | Some i => if decide (i ∈ l) then Some (Some 0) else t !! k
    | None => t !! k
    end.
Proof.
  revert t. induction l as [|i l IH]; intros t.
  - destruct k as [j|]; [|reflexivity].
    destruct (decide (j ∈ [])) as [Hin|_]; [|reflexivity].
    apply elem_of_nil in Hin. contradiction.
  - change (foldl _ t (i :: l))
      with (foldl (fun acc i => <[Some i := Some 0]> acc) (<[Some i := Some 0]> t) l).
    rewrite IH. destruct k as [j|].
    + destruct (decide (j ∈ l)) as [Hin|Hnin];
        destruct (decide (j ∈ i :: l)) as [Hin'|Hnin'].
      * reflexivity.
      * exfalso. apply Hnin', elem_of_cons. auto.
      * apply elem_of_cons in Hin' as [->|?]; [|contradiction].
        apply lookup_insert_eq.
      * apply lookup_insert_ne. intros [= ->]. apply Hnin', elem_of_cons. auto.
    + apply lookup_insert_ne. discriminate.
Qed.

Lemma zero_rows_lookup (t : table) (k : option Z) :
  zero_rows t !! k
  = match k with
    | Some i => if decide (0 ≤ i < 128) then Some (Some 0) else t !! k
    | None => t !! k
    end.
Proof.
  unfold zero_rows. rewrite zero_loop_lookup. destruct k as [i|]; [|reflexivity].
  destruct (decide (i ∈ seqZ 0 128)) as [Hin|Hnin];
    destruct (decide (0 ≤ i < 128)) as [Hr|Hnr]; try reflexivity.
  - apply elem_of_seqZ in Hin. lia.
  - exfalso. apply Hnin, elem_of_seqZ. lia.
Qed.

Lemma zero_rows_idem (t : table) : zero_rows (zero_rows t) = zero_rows t.
Proof.
  apply map_eq. intros k. rewrite !zero_rows_lookup.
  destruct k as [i|]; [|reflexivity].
  destruct (decide (0 ≤ i < 128)); reflexivity.
Qed.

Lemma zero_rows_in_range (t : table) :
  table_in_range t → zero_rows t = zero_rows ∅.
Proof.
  intros Hr. apply map_eq. intros k. rewrite !zero_rows_lookup.
  destruct k as [i|].
  - destruct (decide (0 ≤ i < 128)) as [|Hn]; [reflexivity|].
    rewrite lookup_empty. destruct (t !! Some i) as [v|] eqn:Hv; [|reflexivity].
    destruct (Hr _ _ Hv) as (j & [= <-] & Hj). contradiction.
  - rewrite lookup_empty. destruct (t !! None) as [v|] eqn:Hv; [|reflexivity].
    destruct (Hr _ _ Hv) as (j & [=] & _).
Qed.

Lemma table_in_range_zero_rows (t : table) :
  table_in_range t → table_in_range (zero_rows t).
Proof.
  intros Hr k v Hk. rewrite zero_rows_lookup in Hk.
  destruct k as [i|]; [|eauto].
  destruct (decide (0 ≤ i < 128)); eauto.
Qed.

Lemma table_in_range_insert (t : table) (i : Z) (v : option Z) :
  0 ≤ i < 128 → table_in_range t → table_in_range (<[Some i := v]> t).
Proof.
  intros Hi Hr k w Hk.
  destruct (decide (k = Some i)) as [->|Hne]; [eauto|].
  rewrite lookup_insert_ne in Hk by congruence. eauto.
Qed.

(** What [update] can do to the two tables, for any message. *)
Lemma update_tables (st : MIDIChannelState) (m : MIDIMessage) :
  (Channel.controller (state_of (update st m)) = Channel.controller st
   ∨ (msg_status m = ControlChange
      ∧ Channel.controller (state_of (update st m))
        = <[Codec.controller m := value m]> (Channel.controller st)))
  ∧ (keyPressure (state_of (update st m)) = keyPressure st
     ∨ (msg_status m = KeyPressure
        ∧ keyPressure (state_of (update st m))
          = <[note m := velocity m]> (keyPressure st)))
  ∧ Channel.channel (state_of (update st m)) = Channel.channel st.
Proof.
  unfold update. cbv zeta.
  destruct (Z.eqb_spec (msg_status m) NoteOn) as [Hon|_].
  { destruct (JS.at_ (data m) 1); [destruct (row _ _)|]; simpl; auto. }
  destruct (Z.eqb_spec (msg_status m) NoteOff) as [Hoff|_].
  { destruct (holdOn st); [simpl; auto|].
    destruct (JS.at_ (data m) 1); [destruct (row _ _)|]; simpl; auto. }
  destruct (Z.eqb_spec (msg_status m) KeyPressure) as [Hkp|_].
  { simpl. split; [auto|]. split; [|reflexivity]. right. split; [assumption | reflexivity]. }
  destruct (Z.eqb_spec (msg_status m) ControlChange) as [Hcc|_].
  { destruct (_ && _).
    - destruct (release _ _ _) as [[[|] an] out]; simpl;
        (split; [right; split; [assumption | reflexivity] | auto]).
    - simpl. split; [right; split; [assumption | reflexivity] | auto]. }
  destruct (msg_status m =? PitchBend); [simpl; auto|].
  destruct (msg_status m =? ChannelPressure); simpl; auto.
Qed.

Lemma update_tables_in_range (st : MIDIChannelState) (m : MIDIMessage) :
  complete_frame m = true →
  table_in_range (Channel.controller st) → table_in_range (keyPressure st) →
  table_in_range (Channel.controller (state_of (update st m)))
  ∧ table_in_range (keyPressure (state_of (update st m))).
Proof.
  intros Hc Hrc Hrk.
  destruct (update_tables st m) as (Hctl & Hkey & _).
  assert (Hbytes : msg_status m = ControlChange ∨ msg_status m = KeyPressure →
                   ∃ i, note m = Some i ∧ 0 ≤ i < 128).
  { intros Hs. unfold complete_frame in Hc. cbv zeta in Hc.
    assert (Hset : (msg_status m =? NoteOff) || (msg_status m =? NoteOn)
                   || (msg_status m =? KeyPressure) || (msg_status m =? ControlChange)
                   || (msg_status m =? PitchBend) = true).
    { destruct Hs as [-> | ->]; reflexivity. }
    rewrite Hset in Hc.
    apply andb_prop in Hc as [Hc _]. apply andb_prop in Hc as [_ H1].
    apply data_byte_range. exact H1. }
  split.
  - destruct Hctl as [-> | [Hs ->]]; [assumption|].
    destruct (Hbytes (or_introl Hs)) as (i & Hi & Hr).
    change (Codec.controller m) with (note m). rewrite Hi.
    apply table_in_range_insert; assumption.
  - destruct Hkey as [-> | [Hs ->]]; [assumption|].
    destruct (Hbytes (or_intror Hs)) as (i & Hi & Hr).
    rewrite Hi. apply table_in_range_insert; assumption.
Qed.

Lemma run_tables_in_range (cs : list call) (st : MIDIChannelState) :
  forallb complete_call cs = true →
  table_in_range (Channel.controller st) → table_in_range (keyPressure st) →
  table_in_range (Channel.controller (run st cs))
  ∧ table_in_range (keyPressure (run st cs)).
Proof.
  revert st. induction cs as [|c cs IH]; intros st Hcs Hrc Hrk; [split; assumption|].
  simpl in Hcs. apply andb_prop in Hcs as [Hc Hcs].
  change (run st (c :: cs)) with (run (do_call st c) cs).
  destruct c as [m|]; simpl.
  - destruct (update_tables_in_range st m Hc Hrc Hrk). apply IH; assumption.
  - apply IH; [assumption | |]; unfold reset; cbn [Channel.controller keyPressure];
      apply table_in_range_zero_rows; assumption.
Qed.

Lemma run_channel_field (cs : list call) (st : MIDIChannelState) :
  Channel.channel (run st cs) = Channel.channel st.
Proof.
  revert st. induction cs as [|c cs IH]; intros st; [reflexivity|].
  change (run st (c :: cs)) with (run (do_call st c) cs). rewrite IH.
  destruct c as [m|]; simpl; [|reflexivity].
  apply (update_tables st m).
Qed.

(** X7. reset is idempotent on every channel object.  After any history
    of updates on complete frames and resets, reset gives back exactly the
    object the constructor made for that channel number; and no call ever
    changes the channel number. *)
Theorem reset_restores_construction :
  (∀ st, reset (reset st) = reset st)
  ∧ (∀ ch cs, forallb complete_call cs = true →
              reset (run (new_MIDIChannelState ch) cs) = new_MIDIChannelState ch)
  ∧ (∀ st cs, Channel.channel (run st cs) = Channel.channel st).
Proof.
  split; [|split].
  - intros st. unfold reset.
    cbn [Channel.channel activeNotes Channel.controller keyPressure].
    rewrite !zero_rows_idem. reflexivity.
  - intros ch cs Hcs.
    pose proof (run_inv cs _ (channel_inv_new ch) Hcs) as (Hlen & _ & _).
    assert (Hempty : table_in_range (zero_rows ∅)).
    { apply table_in_range_zero_rows. intros k v Hk. rewrite lookup_empty in Hk.
      discriminate. }
    destruct (run_tables_in_range cs (new_MIDIChannelState ch) Hcs Hempty Hempty)
      as [Hrc Hrk].
    unfold reset. rewrite run_channel_field.
    rewrite (zero_rows_in_range _ Hrc), (zero_rows_in_range _ Hrk).
    rewrite drop_ge by lia. rewrite app_nil_r. reflexivity.
  - intros st cs. apply run_channel_field.
Qed.

Lemma reset_restores_construction_witness :
  let cs := [Update (makeNoteOn true 0 0 60 100);
             Update (makeControlChange true 0 0 64 127);
             Update (makeNoteOff true 0 0 60 0)] in
  reset (run (new_MIDIChannelState 0) cs) = new_MIDIChannelState 0.
Proof.
  intros cs. apply (proj1 (proj2 reset_restores_construction) 0 cs). reflexivity.
Defined.

End ChannelReset.

Section ChannelNotifications.

Import Codec Channel Spec Observed.

(** A message whose status is none of Note-On, Note-Off and Control-Change
    touches neither the queues nor the controller table, and is notified. *)
Lemma update_value_message (st : MIDIChannelState) (m : MIDIMessage) :
  msg_status m ≠ NoteOn → msg_status m ≠ NoteOff → msg_status m ≠ ControlChange →
  ∃ st', update st m = Returned st' [m]
         ∧ heldNotes st' = heldNotes st ∧ activeNotes st' = activeNotes st
         ∧ Channel.controller st' = Channel.controller st.
Proof.
  intros Hon Hoff Hcc. unfold update. cbv zeta.
  rewrite (proj2 (Z.eqb_neq _ _) Hon), (proj2 (Z.eqb_neq _ _) Hoff),
    (proj2 (Z.eqb_neq _ _) Hcc).
  destruct (msg_status m =? KeyPressure);
    [|destruct (msg_status m =? PitchBend);
      [|destruct (msg_status m =? ChannelPressure)]];
    eexists; repeat split.
Qed.

(** One update on a complete frame: what is notified now, together with
    what is held afterwards, is what was held before plus the message. *)
Lemma update_conserves (st : MIDIChannelState) (m : MIDIMessage) :
  channel_inv st → complete_frame m = true →
  notified_of (update st m) ++ heldNotes (state_of (update st m))
  ≡ₚ heldNotes st ++ [m].
Proof.
  intros Hinv Hc. pose proof Hinv as (Hlen & Hheld & _).
  destruct (Z.eq_dec (msg_status m) NoteOn) as [Hon|Hnon].
  { destruct (complete_frame_bytes m Hc ltac:(auto)) as [Hn _].
    apply data_byte_range in Hn as (n & Hn & Hr).
    destruct (row_exists _ n Hlen Hr) as (q & _ & Hq).
    rewrite (update_NoteOn st m n q) by assumption. simpl.
    apply Permutation_cons_append. }
  destruct (Z.eq_dec (msg_status m) NoteOff) as [Hoff|Hnoff].
  { destruct (complete_frame_bytes m Hc ltac:(auto)) as [Hn _].
    destruct (holdOn st) eqn:Hh.
    - rewrite update_NoteOff_hold by assumption. reflexivity.
    - apply data_byte_range in Hn as (n & Hn & Hr).
      destruct (row_exists _ n Hlen Hr) as (q & _ & Hq).
      rewrite (update_NoteOff_free st m n q) by assumption. simpl.
      apply Permutation_cons_append. }
  destruct (Z.eq_dec (msg_status m) ControlChange) as [Hcc|Hncc].
  { destruct (complete_frame_bytes m Hc ltac:(auto)) as [Hn Hv].
    apply data_byte_range in Hn as (c & Hcn & Hcr).
    apply data_byte_range in Hv as (v & Hvn & Hvr).
    change (note m) with (Codec.controller m) in Hcn.
    destruct (decide (c = 64 ∧ v < 64)) as [[-> Hlt]|Hkeep].
    - rewrite (update_ControlChange_release st m v) by assumption. simpl.
      rewrite app_nil_r. reflexivity.
    - rewrite update_ControlChange_keep.
      + simpl. apply Permutation_cons_append.
      + assumption.
      + rewrite Hcn, Hvn. apply andb_false_iff.
        destruct (decide (c = 64)) as [->|Hne].
        * right. apply Z.ltb_ge. lia.
        * left. apply strict_eq_false. congruence. }
  destruct (update_value_message st m Hnon Hnoff Hncc) as (st' & -> & Hh & _).
  simpl. rewrite Hh. apply Permutation_cons_append.
Qed.

Lemma run_conserves (ms : list MIDIMessage) (st : MIDIChannelState) :
  channel_inv st → forallb complete_frame ms = true →
  notified_over st (map Update ms) ++ heldNotes (run st (map Update ms))
  ≡ₚ heldNotes st ++ ms.
Proof.
  revert st. induction ms as [|m ms IH]; intros st Hinv Hms.
  - simpl. rewrite app_nil_r. reflexivity.
  - simpl in Hms. apply andb_prop in Hms as [Hm Hms].
    destruct (update_complete_inv st m Hinv Hm) as (st' & out & E & Hinv').
    change (map Update (m :: ms)) with (Update m :: map Update ms).
    change (run st (Update m :: map Update ms))
      with (run (state_of (update st m)) (map Update ms)).
    cbn [notified_over do_call].
    pose proof (update_conserves st m Hinv Hm) as Hstep.
    rewrite E in Hstep |- *. cbn [state_of notified_of] in Hstep |- *.
    rewrite <- app_assoc. rewrite (IH st' Hinv' Hms).
    rewrite app_assoc. rewrite Hstep. rewrite <- app_assoc. reflexivity.
Qed.

(** X8. No message is lost or notified twice: over any stream of
    complete frames fed to a fresh channel, the messages handed to the
    observers together with the Note-Offs still held are, up to order,
    exactly the messages of the stream. *)
Theorem notifications_conserve_messages (ch : Z) (ms : list MIDIMessage) :
  forallb complete_frame ms = true →
  notified_over (new_MIDIChannelState ch) (map Update ms)
  ++ heldNotes (run (new_MIDIChannelState ch) (map Update ms))
  ≡ₚ ms.
Proof.
  intros Hms.
  apply (run_conserves ms _ (channel_inv_new ch) Hms).
Qed.

Lemma notifications_conserve_messages_witness :
  let ms := [makeNoteOn true 0 0 60 100; makeControlChange true 0 0 64 127;
             makeNoteOff true 0 0 60 0] in
  notified_over (new_MIDIChannelState 0) (map Update ms)
  ++ heldNotes (run (new_MIDIChannelState 0) (map Update ms))
  ≡ₚ ms.
Proof.
  intros ms. apply (notifications_conserve_messages 0 ms). reflexivity.
Defined.

End ChannelNotifications.

Section ChannelShape.

Import Codec Channel Spec Observed.

Lemma rows_insert (an : list (list MIDIMessage)) (k : nat) q :
  rows_hold_own_notes an →
  Forall (fun m => msg_status m = NoteOn ∧ note m = Some (Z.of_nat k)) q →
  rows_hold_own_notes (<[k := q]> an).
Proof.
  intros Han Hq j r Hj.
  destruct (decide (j = k)) as [->|Hne].
  - destruct (decide (k < length an)%nat) as [Hlt|Hge].
    + rewrite list_lookup_insert_eq in Hj by assumption. injection Hj as <-. exact Hq.
    + rewrite list_insert_ge in Hj by lia. eauto.
  - rewrite list_lookup_insert_ne in Hj by congruence. eauto.
Qed.

Lemma rows_shift (an : list (list MIDIMessage)) (z : Z) q :
  rows_hold_own_notes an → row an (Some z) = Some q →
  rows_hold_own_notes (shift_row an z q).
Proof.
  intros Han Hq. unfold row in Hq.
  destruct (0 <=? z); [|discriminate].
  apply rows_insert; [assumption|].
  apply Han in Hq. destruct q as [|m q]; [constructor|].
  apply Forall_cons in Hq as [_ Hq]. exact Hq.
Qed.

Lemma release_shape held an out :
  rows_hold_own_notes an →
  rows_hold_own_notes (release held an out).1.2
  ∧ length (release held an out).1.2 = length an.
Proof.
  revert an out. induction held as [|h held IH]; intros an out Han; simpl.
  - split; [assumption | reflexivity].
  - destruct (note h) as [z|] eqn:Hz; [|split; [assumption | reflexivity]].
    destruct (row an (Some z)) as [q|] eqn:Hq; [|split; [assumption | reflexivity]].
    destruct (IH (shift_row an z q) (out ++ [h]) (rows_shift an z q Han Hq)) as [H1 H2].
    split; [exact H1|]. rewrite H2. unfold shift_row. apply length_insert.
Qed.

Lemma update_shape (st : MIDIChannelState) (m : MIDIMessage) :
  channel_shape st → channel_shape (state_of (update st m)).
Proof.
  intros (Hlen & Hrows & Hheld). unfold update. cbv zeta.
  destruct (Z.eqb_spec (msg_status m) NoteOn) as [Hon|_].
  { destruct (JS.at_ (data m) 1) as [z|] eqn:Hz; [|repeat split; assumption].
    destruct (row (activeNotes st) (Some z)) as [q|] eqn:Hq;
      [|repeat split; assumption].
    unfold channel_shape; cbn [state_of set_activeNotes set_heldNotes activeNotes heldNotes].
    unfold push_row. split; [rewrite length_insert; assumption|].
    split; [|assumption].
    pose proof Hq as Hq'. unfold row in Hq'.
    destruct (Z.leb_spec 0 z); [|discriminate].
    apply rows_insert; [assumption|].
    apply Forall_app. split; [apply (Hrows _ _ Hq')|].
    repeat constructor; [assumption|]. rewrite Z2Nat.id by lia. exact Hz. }
  destruct (Z.eqb_spec (msg_status m) NoteOff) as [Hoff|_].
  { destruct (holdOn st).
    - unfold channel_shape; cbn [state_of set_activeNotes set_heldNotes activeNotes heldNotes].
      repeat split; try assumption.
      apply Forall_app. split; [assumption | repeat constructor; assumption].
    - destruct (JS.at_ (data m) 1) as [z|] eqn:Hz; [|repeat split; assumption].
      destruct (row (activeNotes st) (Some z)) as [q|] eqn:Hq;
        [|repeat split; assumption].
      unfold channel_shape; cbn [state_of set_activeNotes set_heldNotes activeNotes heldNotes].
      split; [unfold shift_row; rewrite length_insert; assumption|].
      split; [apply rows_shift; assumption | assumption]. }
  destruct (msg_status m =? KeyPressure); [repeat split; assumption|].
  destruct (msg_status m =? ControlChange).
  { destruct (_ && _); [|repeat split; assumption].
    cbn [set_controller heldNotes activeNotes].
    pose proof (release_shape (heldNotes st) (activeNotes st) [] Hrows) as [H1 H2].
    destruct (release (heldNotes st) (activeNotes st) []) as [[[|] an] out];
      simpl in H1, H2; unfold channel_shape;
      cbn [state_of set_activeNotes set_heldNotes set_controller activeNotes heldNotes];
      (split; [congruence|]); (split; [assumption|]);
      first [assumption | apply Forall_nil_2]. }
  destruct (msg_status m =? PitchBend); [repeat split; assumption|].
  destruct (msg_status m =? ChannelPressure); repeat split; assumption.
Qed.

Lemma reset_shape (st : MIDIChannelState) : channel_shape st → channel_shape (reset st).
Proof.
  intros (Hlen & _ & _). unfold reset, channel_shape. cbn [activeNotes heldNotes].
  rewrite drop_ge by lia. rewrite app_nil_r.
  split; [reflexivity|]. split; [|constructor].
  intros k q Hk. apply lookup_replicate in Hk as [-> _]. constructor.
Qed.

(** X9. Whatever frames a channel is given, complete or not, and whether
    or not a call throws: it keeps exactly 128 note queues, queue k holds
    only Note-On messages for note k, and the held queue holds only
    Note-Off messages. *)
Theorem channel_keeps_its_shape (ch : Z) (cs : list call) :
  let st := run (new_MIDIChannelState ch) cs in
  length (activeNotes st) = 128%nat
  ∧ (∀ (k : nat) q, activeNotes st !! k = Some q →
       Forall (fun m => msg_status m = NoteOn ∧ note m = Some (Z.of_nat k)) q)
  ∧ Forall (fun m => msg_status m = NoteOff) (heldNotes st).
Proof.
  intros st.
  assert (Hgen : ∀ cs s, channel_shape s → channel_shape (run s cs)).
  { clear. intros cs. induction cs as [|c cs IH]; intros s Hs; [exact Hs|].
    change (run s (c :: cs)) with (run (do_call s c) cs). apply IH.
    destruct c as [m|]; simpl; [apply update_shape | apply reset_shape]; assumption. }
  apply (Hgen cs (new_MIDIChannelState ch)).
  split; [reflexivity|]. split; [|constructor].
  intros k q Hk. apply lookup_replicate in Hk as [-> _]. constructor.
Qed.

End ChannelShape.

Section ChannelHoldAndErrors.

Import Codec Channel Spec Observed.

Lemma update_controller_table (st : MIDIChannelState) (m : MIDIMessage) :
  Channel.controller (state_of (update st m))
  = if msg_status m =? ControlChange
    then <[Codec.controller m := value m]> (Channel.controller st)
    else Channel.controller st.
Proof.
  destruct (Z.eqb_spec (msg_status m) ControlChange) as [Hcc|Hncc].
  - known_status Hcc. destruct (_ && _); [|reflexivity].
    destruct (release _ _ _) as [[[|] an] out]; reflexivity.
  - destruct (update_tables st m) as ([H | [H _]] & _); [exact H | contradiction].
Qed.

Lemma update_holdOn (st : MIDIChannelState) (m : MIDIMessage) :
  holdOn (state_of (update st m))
  = if is_hold_switch m then JS.ge (value m) 64 else holdOn st.
Proof.
  unfold holdOn, is_hold_switch. rewrite update_controller_table.
  destruct (msg_status m =? ControlChange); [|reflexivity].
  cbn [andb].
  destruct (JS.strict_eq (Codec.controller m) (Some 64)) eqn:Hc.
  - apply strict_eq_true in Hc. rewrite Hc, table_get_insert. reflexivity.
  - apply strict_eq_false in Hc. rewrite table_get_insert_ne by assumption. reflexivity.
Qed.

(** X10. Hold depends on the Control-Change messages for controller 64
    and on reset only: after any history of calls, with any frames, holdOn
    is what the last such message set (value >= 64) or false after a later
    reset; a Control-Change for controller c is read back from the table at
    c and leaves every other controller as it was. *)
Theorem hold_follows_controller_64 :
  (∀ st cs, holdOn (run st cs) = hold_after (holdOn st) cs)
  ∧ (∀ st m c,
       msg_status m = ControlChange → Codec.controller m = Some c →
       table_get (Channel.controller (state_of (update st m))) (Some c) = value m
       ∧ ∀ k, k ≠ c →
           table_get (Channel.controller (state_of (update st m))) (Some k)
           = table_get (Channel.controller st) (Some k)).
Proof.
  split.
  - intros st cs. revert st. induction cs as [|c cs IH]; intros st; [reflexivity|].
    change (run st (c :: cs)) with (run (do_call st c) cs).
    unfold hold_after. cbn [foldl]. fold (hold_after
      (match c with
       | Update m => if is_hold_switch m then JS.ge (value m) 64 else holdOn st
       | Reset => false
       end) cs).
    rewrite IH. f_equal. destruct c as [m|]; simpl.
    + apply update_holdOn.
    + apply holdOn_reset.
  - intros st m c Hs Hc. rewrite update_controller_table, Hs, Hc.
    change (ControlChange =? ControlChange) with true. cbv iota.
    split; [apply table_get_insert|].
    intros k Hk. apply table_get_insert_ne. congruence.
Qed.

Lemma hold_follows_controller_64_witness :
  let m := makeControlChange true 0 0 7 100 in
  table_get (Channel.controller (state_of (update (new_MIDIChannelState 0) m))) (Some 7)
  = Some 100.
Proof.
  intros m.
  apply (proj1 (proj2 hold_follows_controller_64 (new_MIDIChannelState 0) m 7
                  eq_refl eq_refl)).
Defined.

Lemma row_out_of_range (an : list (list MIDIMessage)) (x : option Z) :
  length an = 128%nat → data_byte x = false →
  match x with Some z => row an (Some z) = None | None => True end.
Proof.
  intros Hlen Hx. destruct x as [z|]; [|exact I].
  unfold data_byte in Hx. unfold row.
  destruct (Z.leb_spec 0 z); [|reflexivity].
  destruct (Z.ltb_spec z 128); [discriminate|].
  apply lookup_ge_None_2. lia.
Qed.

Lemma release_stops pre bad post an out :
  length an = 128%nat →
  Forall (fun h => data_byte (note h) = true) pre →
  data_byte (note bad) = false →
  release (pre ++ bad :: post) an out = (false, foldl pop_oldest an pre, out ++ pre).
Proof.
  revert an out. induction pre as [|h pre IH]; intros an out Hlen Hpre Hbad.
  - simpl. rewrite app_nil_r.
    pose proof (row_out_of_range an (note bad) Hlen Hbad) as Hrow.
    destruct (note bad) as [z|]; [rewrite Hrow|]; reflexivity.
  - apply Forall_cons in Hpre as [Hh Hpre].
    apply data_byte_range in Hh as (n & Hn & Hr).
    destruct (row_exists an n Hlen Hr) as (q & _ & Hq).
    simpl. unfold pop_oldest at 2. rewrite Hn, Hq.
    rewrite IH by (unfold shift_row; rewrite ?length_insert; assumption).
    rewrite <- app_assoc. reflexivity.
Qed.

(** X11. Bounds.  On a channel with its 128 queues, a Note-On, or a
    Note-Off while hold is off, whose note byte is missing or not in
    0..127 throws a TypeError and leaves the object untouched, with nobody
    notified.  While hold is on such a Note-Off is deferred like any other;
    the release then stops at it with a TypeError: the Note-Offs deferred
    before it are popped and notified, controller 64 already has its new
    value, so hold reads off, and the held queue is left as it was. *)
Theorem note_out_of_range_throws :
  (∀ st m,
     length (activeNotes st) = 128%nat → data_byte (note m) = false →
     msg_status m = NoteOn ∨ (msg_status m = NoteOff ∧ holdOn st = false) →
     update st m = TypeError st [])
  ∧ (∀ st m v pre bad post,
       length (activeNotes st) = 128%nat →
       heldNotes st = pre ++ bad :: post →
       Forall (fun h => data_byte (note h) = true) pre →
       data_byte (note bad) = false →
       msg_status m = ControlChange →
       Codec.controller m = Some 64 → value m = Some v → v < 64 →
       ∃ st',
         update st m = TypeError st' pre
         ∧ heldNotes st' = heldNotes st
         ∧ activeNotes st' = foldl pop_oldest (activeNotes st) pre
         ∧ holdOn st' = false).
Proof.
  split.
  - intros st m Hlen Hn Hs.
    pose proof (row_out_of_range (activeNotes st) (note m) Hlen Hn) as Hrow.
    destruct Hs as [Hs | [Hs Hh]]; known_status Hs; rewrite ?Hh;
      change (JS.at_ (data m) 1) with (note m);
      (destruct (note m) as [z|]; [rewrite Hrow|]; reflexivity).
  - intros st m v pre bad post Hlen Hheld Hpre Hbad Hs Hc Hv Hlt.
    known_status Hs.
    change (JS.at_ (data m) 1) with (Codec.controller m).
    change (JS.at_ (data m) 2) with (value m).
    rewrite Hc, Hv.
    replace (JS.strict_eq (Some 64) (Some 64) && JS.lt (Some v) 64) with true.
    2:{ symmetry. apply andb_true_iff. split; [reflexivity | apply Z.ltb_lt; assumption]. }
    cbn [set_controller heldNotes activeNotes].
    rewrite Hheld, (release_stops pre bad post _ [] Hlen Hpre Hbad).
    eexists. split; [reflexivity|].
    cbn [set_activeNotes heldNotes activeNotes]. repeat split.
    + exact Hheld.
    + unfold holdOn. cbn [set_activeNotes set_controller Channel.controller].
      rewrite table_get_insert. apply Z.leb_gt. assumption.
Qed.

Lemma note_out_of_range_throws_witness :
  update (new_MIDIChannelState 0) (mkMessage [0x90; 200; 100] 0)
  = TypeError (new_MIDIChannelState 0) [].
Proof.
  apply (proj1 note_out_of_range_throws); [reflexivity | reflexivity |].
  left. reflexivity.
Defined.

(** X12. A Note-Off for a note with no outstanding Note-On, while hold
    is off, changes nothing in the channel and is notified like any other
    message; in general the queue gets one shorter and never shorter than
    empty. *)
Theorem unmatched_note_off_is_harmless (st : MIDIChannelState) (m : MIDIMessage)
    (n : Z) (q : list MIDIMessage) :
  msg_status m = NoteOff → holdOn st = false →
  note m = Some n → row (activeNotes st) (Some n) = Some q →
  (q = [] → update st m = Returned st [m])
  ∧ ∃ st' q', update st m = Returned st' [m]
              ∧ row (activeNotes st') (Some n) = Some q'
              ∧ length q' = (length q - 1)%nat.
Proof.
  intros Hs Hh Hn Hq.
  pose proof (update_NoteOff_free st m n q Hs Hh Hn Hq) as E.
  pose proof Hq as Hq'. unfold row in Hq'.
  destruct (Z.leb_spec 0 n); [|discriminate].
  split.
  - intros ->. rewrite E. f_equal.
    unfold shift_row, set_activeNotes. simpl tail.
    rewrite list_insert_id by assumption. destruct st; reflexivity.
  - eexists _, (tail q). split; [exact E|].
    cbn [set_activeNotes activeNotes]. unfold shift_row.
    split; [apply (row_insert_same _ n q); assumption|].
    destruct q; simpl; lia.
Qed.

Lemma unmatched_note_off_is_harmless_witness :
  update (new_MIDIChannelState 0) (makeNoteOff true 0 0 60 0)
  = Returned (new_MIDIChannelState 0) [makeNoteOff true 0 0 60 0].
Proof.
  apply (proj1 (unmatched_note_off_is_harmless (new_MIDIChannelState 0)
                  (makeNoteOff true 0 0 60 0) 60 []
                  eq_refl (holdOn_new 0) eq_refl eq_refl)).
  reflexivity.
Defined.

End ChannelHoldAndErrors.

(** ** The device state *)

Section DeviceRouting.

Import Codec Channel Spec Device.

Lemma channel_nibble_range (m : MIDIMessage) : 0 ≤ Codec.channel m < 16.
Proof.
  unfold Codec.channel, JS.band. rewrite land_low4. apply Z.mod_pos_bound. lia.
Qed.

Lemma addressed_channel (k : nat) (m : MIDIMessage) :
  msg_type m = Codec.Channel →
  addressed (Z.of_nat k) m = bool_decide (k = Z.to_nat (Codec.channel m)).
Proof.
  intros Ht. unfold addressed. rewrite Ht.
  pose proof (channel_nibble_range m).
  destruct (Z.eqb_spec (Codec.channel m) (Z.of_nat k)) as [E|E].
  - rewrite bool_decide_eq_true_2 by lia. reflexivity.
  - rewrite bool_decide_eq_false_2 by lia. reflexivity.
Qed.

(** What a device state keeps between complete frames. *)
Lemma feed_routes (ms : list MIDIMessage) (ds : MIDIDeviceState) :
  forallb complete_frame ms = true →
  length (channels ds) = 16%nat →
  Forall channel_inv (channels ds) → channel_inv (omni ds) →
  (∀ (k : nat) c, channels ds !! k = Some c →
     channels (feed ds ms) !! k
     = Some (Channel.run c (map Update (List.filter (addressed (Z.of_nat k)) ms))))
  ∧ omni (feed ds ms)
    = Channel.run (omni ds) (map Update (List.filter is_channel_message ms))
  ∧ length (channels (feed ds ms)) = 16%nat.
Proof.
  revert ds. induction ms as [|m ms IH]; intros ds Hms Hlen Hchs Homni.
  - repeat split; [|assumption]. intros k c Hk. exact Hk.
  - simpl in Hms. apply andb_prop in Hms as [Hm Hms].
    change (feed ds (m :: ms)) with (feed (state_of (Device.update ds m)) ms).
    unfold Device.update.
    destruct (msg_type m) eqn:Ht.
    + pose proof (channel_nibble_range m) as Hr.
      set (i := Z.to_nat (Codec.channel m)).
      destruct (lookup_lt_is_Some_2 (channels ds) i ltac:(unfold i; lia)) as [c Hc].
      rewrite Hc.
      assert (Hcinv : channel_inv c).
      { rewrite Forall_forall in Hchs. apply Hchs.
        apply list_elem_of_lookup. eauto. }
      destruct (update_complete_inv c m Hcinv Hm) as (c' & out & Ec & Hc').
      destruct (update_complete_inv (omni ds) m Homni Hm) as (o' & out' & Eo & Ho').
      rewrite Ec, Eo. cbn [Device.state_of].
      destruct (IH (mkDeviceState (<[i := c']> (channels ds)) o') Hms) as (H1 & H2 & H3).
      * cbn [channels]. rewrite length_insert. assumption.
      * cbn [channels]. apply Forall_insert; assumption.
      * exact Ho'.
      * cbn [channels omni] in H1, H2.
        split; [|split; [|exact H3]].
        -- intros k ck Hk. simpl List.filter.
           rewrite (addressed_channel k m Ht). fold i.
           destruct (decide (k = i)) as [->|Hne].
           ++ rewrite bool_decide_eq_true_2 by reflexivity.
              rewrite (H1 i c') by (apply list_lookup_insert_eq; lia).
              assert (ck = c) by congruence. subst ck.
              cbn [map]. unfold Channel.run at 2. cbn [foldl do_call].
              rewrite Ec. reflexivity.
           ++ rewrite bool_decide_eq_false_2 by assumption.
              apply H1. rewrite list_lookup_insert_ne by congruence. exact Hk.
        -- assert (Hicm : is_channel_message m = true)
             by (unfold is_channel_message; rewrite Ht; reflexivity).
           rewrite H2. simpl List.filter. rewrite Hicm.
           cbn [map]. unfold Channel.run at 2. cbn [foldl do_call].
           rewrite Eo. reflexivity.
    + cbn [Device.state_of].
      destruct (IH ds Hms Hlen Hchs Homni) as (H1 & H2 & H3).
      split; [|split; [|exact H3]].
      * intros k c Hk. simpl List.filter.
        assert (Ha : addressed (Z.of_nat k) m = false)
          by (unfold addressed; rewrite Ht; reflexivity).
        rewrite Ha. apply H1. exact Hk.
      * assert (Hicm : is_channel_message m = false)
          by (unfold is_channel_message; rewrite Ht; reflexivity).
        rewrite H2. simpl List.filter. rewrite Hicm. reflexivity.
    + cbn [Device.state_of].
      destruct (IH ds Hms Hlen Hchs Homni) as (H1 & H2 & H3).
      split; [|split; [|exact H3]].
      * intros k c Hk. simpl List.filter.
        assert (Ha : addressed (Z.of_nat k) m = false)
          by (unfold addressed; rewrite Ht; reflexivity).
        rewrite Ha. apply H1. exact Hk.
      * assert (Hicm : is_channel_message m = false)
          by (unfold is_channel_message; rewrite Ht; reflexivity).
        rewrite H2. simpl List.filter. rewrite Hicm. reflexivity.
Qed.

Lemma new_device_channel (k : nat) :
  (k < 16)%nat →
  channels new_MIDIDeviceState !! k = Some (new_MIDIChannelState (Z.of_nat k)).
Proof.
  intros Hk. unfold new_MIDIDeviceState. cbn [channels].
  do 16 (destruct k as [|k]; [reflexivity|]). lia.
Qed.

Lemma new_device_inv :
  length (channels new_MIDIDeviceState) = 16%nat
  ∧ Forall channel_inv (channels new_MIDIDeviceState)
  ∧ channel_inv (omni new_MIDIDeviceState).
Proof.
  split; [reflexivity|]. split; [|apply channel_inv_new].
  unfold new_MIDIDeviceState. cbn [channels].
  apply Forall_forall. intros c Hc.
  apply list_elem_of_In, in_map_iff in Hc as (i & <- & _).
  apply channel_inv_new.
Qed.

(** X13. The device state splits a stream by channel.  After any stream
    of complete frames, channel i is in the state a single channel object
    reaches on the channel messages addressed to i alone, in order; omni is
    in the state reached on all channel messages; system and sysex messages
    reach neither. *)
Theorem device_routes_by_channel (ms : list MIDIMessage) :
  forallb complete_frame ms = true →
  let ds := feed new_MIDIDeviceState ms in
  (∀ i, 0 ≤ i < 16 →
     getChannelState ds i
     = Some (Channel.run (new_MIDIChannelState i)
               (map Update (List.filter (addressed i) ms))))
  ∧ (∀ i, ¬ (0 ≤ i < 16) → getChannelState ds i = Some (omni ds))
  ∧ omni ds
    = Channel.run (new_MIDIChannelState (-1))
        (map Update (List.filter is_channel_message ms)).
Proof.
  intros Hms ds.
  destruct new_device_inv as (Hlen & Hchs & Homni).
  destruct (feed_routes ms new_MIDIDeviceState Hms Hlen Hchs Homni) as (H1 & H2 & _).
  split; [|split; [|exact H2]].
  - intros i Hi. unfold getChannelState.
    destruct (Z.leb_spec 0 i); [|lia]. destruct (Z.ltb_spec i 16); [|lia].
    cbn [andb]. unfold ds.
    rewrite (H1 (Z.to_nat i) (new_MIDIChannelState i)).
    + rewrite Z2Nat.id by lia. reflexivity.
    + rewrite new_device_channel by lia. rewrite Z2Nat.id by lia. reflexivity.
  - intros i Hi. unfold getChannelState.
    destruct (Z.leb_spec 0 i); destruct (Z.ltb_spec i 16); try reflexivity. lia.
Qed.

Lemma device_routes_by_channel_witness :
  let ms := [makeNoteOn true 0 3 60 100; makeNoteOn true 0 5 62 100;
             mkMessage [0xf8] 0; makeNoteOff true 0 3 60 0] in
  getChannelState (feed new_MIDIDeviceState ms) 3
  = Some (Channel.run (new_MIDIChannelState 3)
            (map Update (List.filter (addressed 3) ms))).
Proof.
  intros ms.
  apply (proj1 (device_routes_by_channel ms eq_refl) 3). lia.
Defined.

(** X14. Device reset after any stream of complete frames gives back the
    device state the constructor makes: sixteen fresh channels 0..15 and a
    fresh omni channel. *)
Theorem device_reset_restores_construction (ms : list MIDIMessage) :
  forallb complete_frame ms = true →
  Device.reset (feed new_MIDIDeviceState ms) = Some new_MIDIDeviceState.
Proof.
  intros Hms.
  destruct new_device_inv as (Hlen & Hchs & Homni).
  destruct (feed_routes ms new_MIDIDeviceState Hms Hlen Hchs Homni) as (H1 & H2 & H3).
  assert (Hcalls : ∀ f, forallb complete_call (map Update (List.filter f ms)) = true).
  { intros f. clear -Hms. induction ms as [|m ms IH]; [reflexivity|].
    simpl in Hms. apply andb_prop in Hms as [Hm Hms]. simpl.
    destruct (f m); [simpl; rewrite Hm|]; auto. }
  unfold Device.reset. rewrite H3. cbn [Nat.leb].
  rewrite (take_ge (channels _) 16), (drop_ge (channels _) 16), app_nil_r by lia.
  change (omni new_MIDIDeviceState) with (new_MIDIChannelState (-1)) in H2.
  rewrite H2. rewrite (proj1 (proj2 reset_restores_construction) _ _ (Hcalls _)).
  f_equal. unfold new_MIDIDeviceState at 2. f_equal.
  change (map new_MIDIChannelState (seqZ 0 16)) with (channels new_MIDIDeviceState).
  apply list_eq. intros k.
  destruct (decide (k < 16)%nat) as [Hk|Hk].
  - change (map Channel.reset ?l) with (Channel.reset <$> l).
    rewrite list_lookup_fmap.
    rewrite (H1 k _ (new_device_channel k Hk)). cbn [fmap option_fmap option_map].
    rewrite (proj1 (proj2 reset_restores_construction) _ _ (Hcalls _)).
    symmetry. apply (new_device_channel k Hk).
  - rewrite !lookup_ge_None_2; [reflexivity | |].
    + change (length (channels new_MIDIDeviceState) ≤ k)%nat. rewrite Hlen. lia.
    + rewrite length_map, H3. lia.
Qed.

Lemma device_reset_restores_construction_witness :
  Device.reset (feed new_MIDIDeviceState
                  [makeNoteOn true 0 3 60 100; makeControlChange true 0 3 64 127])
  = Some new_MIDIDeviceState.
Proof.
  apply device_reset_restores_construction. reflexivity.
Defined.

End DeviceRouting.

(** ** More on the exchange *)

Section ExchangeMatching.

Import Codec Exchange Spec Observed.



Lemma startExchangeEvent_keeps (ex : MIDIExchange) :
  _responses (exchange_of (startExchangeEvent ex)) = _responses ex
  ∧ _eventIndex (exchange_of (startExchangeEvent ex)) = _eventIndex ex
  ∧ device (exchange_of (startExchangeEvent ex)) = device ex
  ∧ (sent (exchange_of (startExchangeEvent ex)) = sent ex
     ∨ ∃ ev, ev ∈ _exchangeEvents ex
             ∧ sent (exchange_of (startExchangeEvent ex)) = sent ex ++ [request ev]).
Proof.
  unfold startExchangeEvent.
  destruct (_exchangeEvents ex !! _eventIndex ex) as [ev|] eqn:Hev; simpl.
  - repeat split. right. exists ev. split; [|reflexivity].
    apply list_elem_of_lookup. eauto.
  - repeat split. left. reflexivity.
Qed.

Lemma settle_keeps (ex : MIDIExchange) (s : settlement) :
  _responses (exchange_of (settle ex s)) = _responses ex
  ∧ _eventIndex (exchange_of (settle ex s)) = _eventIndex ex
  ∧ device (exchange_of (settle ex s)) = device ex
  ∧ sent (exchange_of (settle ex s)) = sent ex.
Proof. unfold settle; simpl. destruct (_resolve ex); repeat split. Qed.



End ExchangeMatching.

Section ExchangeHistories.

Import Codec Exchange Spec Observed.

(** What one event of a history can add to the recorded responses and to
    the frames sent. *)
Lemma step_adds (ex : MIDIExchange) (e : event) :
  (_responses (step ex e) = _responses ex
   ∨ ∃ d, e = Frame d ∧ _responses (step ex e) = _responses ex ++ [d])
  ∧ (sent (step ex e) = sent ex
     ∨ ∃ ev, ev ∈ _exchangeEvents ex ∧ sent (step ex e) = sent ex ++ [request ev])
  ∧ device (step ex e) = device ex.
Proof.
  destruct e as [|d|h]; cbn [step].
  - unfold start.
    destruct (_isRunning ex); [simpl; auto|].
    destruct (_isCompleted ex); [simpl; auto|].
    cbn [_exchangeEvents].
    destruct (length (_exchangeEvents ex) =? 0)%nat; [simpl; auto|].
    cbn [fst].
    match goal with |- context [startExchangeEvent ?e] =>
      destruct (startExchangeEvent_keeps e) as (-> & _ & -> & Hs) end.
    split; [left; reflexivity|]. split; [|reflexivity]. exact Hs.
  - unfold deliver. destruct (listening ex); [|simpl; auto].
    unfold onMidiMessage.
    assert (Hresp : ∀ r, r = _responses ex ∨ r = _responses ex ++ [d] →
              r = _responses ex ∨ ∃ d', Frame d = Frame d' ∧ r = _responses ex ++ [d']).
    { intros r [->| ->]; [left; reflexivity | right; eauto]. }
    destruct (match _requiredResponses ex with Some _ => _ | None => _ end)
      as [[responses required] completed] eqn:Hm.
    assert (Hr : responses = _responses ex ∨ responses = _responses ex ++ [d]).
    { destruct (_requiredResponses ex) as [reqs|].
      - destruct (delete_first_match (device ex) d reqs); injection Hm as <- _ _; auto.
      - injection Hm as <- _ _. auto. }
    destruct completed; [|simpl; auto].
    match goal with |- context [if ?c then _ else _] => destruct c end.
    + match goal with |- context [settle ?e ?s] =>
        destruct (settle_keeps e s) as (-> & _ & -> & ->) end.
      simpl. auto.
    + match goal with |- context [startExchangeEvent ?e] =>
        destruct (startExchangeEvent_keeps e) as (-> & _ & -> & Hs) end.
      simpl. simpl in Hs. auto.
  - unfold timeout_fires. destruct (bool_decide _); [|simpl; auto].
    match goal with |- context [settle ?e ?s] =>
      destruct (settle_keeps e s) as (-> & _ & -> & ->) end.
    simpl. auto.
Qed.

Lemma run_adds (es : list event) (ex : MIDIExchange) :
  (∃ l, l `sublist_of` frames_of es ∧ _responses (run ex es) = _responses ex ++ l)
  ∧ (∃ l, Forall (fun f => f ∈ map request (_exchangeEvents ex)) l
          ∧ sent (run ex es) = sent ex ++ l)
  ∧ device (run ex es) = device ex.
Proof.
  revert ex. induction es as [|e es IH]; intros ex.
  - split; [exists []; split; [constructor | symmetry; apply app_nil_r]|].
    split; [exists []; split; [constructor | symmetry; apply app_nil_r] | reflexivity].
  - change (run ex (e :: es)) with (run (step ex e) es).
    destruct (IH (step ex e)) as ((l & Hl & Hr) & (k & Hk & Hs) & Hd).
    destruct (step_adds ex e) as (Hr1 & Hs1 & Hd1).
    assert (Hev : _exchangeEvents (step ex e) = _exchangeEvents ex).
    { pose proof (step_guards ex e) as Hg. unfold guards in Hg. congruence. }
    rewrite Hev in Hk.
    split; [|split; [|congruence]].
    + destruct Hr1 as [E | (d & -> & E)]; rewrite Hr, E.
      * exists l. split; [|reflexivity].
        unfold frames_of. destruct e; cbn [omap]; fold (frames_of es);
          [assumption | apply sublist_cons; assumption | assumption].
      * exists (d :: l). split; [|rewrite <- app_assoc; reflexivity].
        unfold frames_of. cbn [omap]. fold (frames_of es).
        apply sublist_skip. assumption.
    + destruct Hs1 as [E | (ev & Hin & E)]; rewrite Hs, E.
      * exists k. split; [assumption | reflexivity].
      * exists (request ev :: k). split; [|rewrite <- app_assoc; reflexivity].
        constructor; [|assumption].
        apply list_elem_of_In, in_map, list_elem_of_In. exact Hin.
Qed.

(** X16. After any history of start calls, frames and timeouts, the
    recorded responses are frames that were delivered, in the order of
    their delivery and none recorded twice, and everything sent to the
    output is the request of one of the exchange's events. *)
Theorem exchange_records_only_received_frames (dev : MIDIDevice)
    (evs : list IExchangeEvent) (msTimeout : option Z) (es : list event) :
  let ex := run (new_MIDIExchange dev evs msTimeout) es in
  _responses ex `sublist_of` frames_of es
  ∧ Forall (fun f => f ∈ map request evs) (sent ex)
  ∧ device ex = dev ∧ _exchangeEvents ex = evs.
Proof.
  intros ex.
  destruct (run_adds es (new_MIDIExchange dev evs msTimeout))
    as ((l & Hl & Hr) & (k & Hk & Hs) & Hd).
  fold ex in Hr, Hs, Hd.
  split; [rewrite Hr; exact Hl|]. split; [rewrite Hs; exact Hk|].
  split; [exact Hd|].
  pose proof (run_guards es (new_MIDIExchange dev evs msTimeout)) as Hg.
  fold ex in Hg. unfold guards in Hg. cbn in Hg. congruence.
Qed.

(** X17. When the timeout of the first event expires before a response,
    the promise of [start] is rejected once with the exchange's timeout
    (5000 ms unless a non-zero one was given), the listener is removed, and
    from then on frames and timer callbacks change nothing. *)
Theorem timeout_rejects_the_exchange (dev : MIDIDevice) (ev : IExchangeEvent)
    (evs : list IExchangeEvent) (msTimeout : option Z) :
  let ex1 := exchange_of (fst (start (new_MIDIExchange dev (ev :: evs) msTimeout))) in
  let ex2 := exchange_of (timeout_fires ex1 0) in
  _timeout ex1 = match msTimeout with Some 0 | None => 5000 | Some t => t end
  ∧ settled ex2 = [(0%nat, Rejected (TimeoutReached (_timeout ex1)))]
  ∧ listening ex2 = false ∧ timers ex2 = [] ∧ _responses ex2 = []
  ∧ (∀ frame, deliver ex2 frame = Done ex2)
  ∧ (∀ h, timeout_fires ex2 h = Done ex2).
Proof.
  intros ex1 ex2.
  set (T := match msTimeout with Some 0 | None => 5000 | Some t => t end).
  set (R := match response ev with
            | NoResponse => None
            | OneResponse r => Some [r]
            | ManyResponses rs => Some rs
            end).
  assert (E1 : ex1 = mkExchange dev false false (Some 0%nat) T (Some 0%nat) (ev :: evs)
                       [] 0%nat R true [request ev] [0%nat] 1%nat 1%nat []).
  { subst ex1 T R. destruct msTimeout as [[| |]|]; reflexivity. }
  assert (E2 : ex2 = mkExchange dev false false (Some 0%nat) T (Some 0%nat) (ev :: evs)
                       [] 0%nat R false [request ev] [] 1%nat 1%nat
                       [(0%nat, Rejected (TimeoutReached T))]).
  { subst ex2. rewrite E1. unfold timeout_fires. cbn [timers].
    rewrite bool_decide_eq_true_2 by apply list_elem_of_here.
    rewrite filter_cons_False by (intros H; apply H; reflexivity).
    rewrite filter_nil. reflexivity. }
  rewrite E2, E1. cbn [_timeout settled listening timers _responses].
  repeat apply conj; reflexivity.
Qed.

End ExchangeHistories.

Section ExchangeCompletion.

Import Codec Exchange Spec Observed.

(** One answering frame on an armed exchange: the frame is recorded, the
    timeout is cleared, and the exchange resolves or arms the next event. *)
Lemma armed_frame (ex : MIDIExchange) (p h : nat) (ev : IExchangeEvent) (f : list Z) :
  armed ex p h →
  _exchangeEvents ex !! _eventIndex ex = Some ev →
  answers (device ex) ev f = true →
  let ex' := exchange_of (deliver ex f) in
  _responses ex' = _responses ex ++ [f]
  ∧ _eventIndex ex' = S (_eventIndex ex)
  ∧ _exchangeEvents ex' = _exchangeEvents ex ∧ device ex' = device ex
  ∧ (length (_exchangeEvents ex) ≤ S (_eventIndex ex) →
       settled ex' = settled ex ++ [(p, Resolved)] ∧ sent ex' = sent ex
       ∧ timers ex' = [] ∧ listening ex' = false)%nat
  ∧ (S (_eventIndex ex) < length (_exchangeEvents ex) →
       settled ex' = settled ex ∧ armed ex' p (next_timer ex)
       ∧ ∃ ev', _exchangeEvents ex !! S (_eventIndex ex) = Some ev'
                ∧ sent ex' = sent ex ++ [request ev'])%nat.
Proof.
  intros (Hl & Hp & Hh & Ht & ev0 & Hev0 & Hreq) Hev Hans ex'.
  assert (ev0 = ev) by congruence. subst ev0.
  destruct ex as [dev r c res t hd evs resp idx req lis snt tms nt np stl].
  cbn [listening _resolve _handle timers _exchangeEvents _eventIndex
       _requiredResponses device _responses settled sent next_timer] in *.
  subst lis res hd tms req.
  assert (Hm : ∃ R, (match required_of ev with
                     | Some reqs =>
                         match delete_first_match dev f reqs with
                         | Some rest => (resp ++ [f], Some rest, (length rest =? 0)%nat)
                         | None => (resp, Some reqs, (length reqs =? 0)%nat)
                         end
                     | None => (resp ++ [f], None, true)
                     end) = (resp ++ [f], R, true)).
  { unfold answers in Hans. unfold required_of.
    destruct (response ev) as [|r0|[|r0 [|r1 rs]]]; try discriminate Hans.
    - eexists. reflexivity.
    - cbn [delete_first_match]. rewrite Hans. eexists. reflexivity.
    - cbn [delete_first_match]. rewrite Hans. eexists. reflexivity. }
  destruct Hm as (R & Hm).
  assert (Hf : filter (fun t0 : nat => t0 ≠ h) [h] = []).
  { rewrite filter_cons_False by (intros H; apply H; reflexivity). apply filter_nil. }
  subst ex'. unfold deliver. cbn [listening]. unfold onMidiMessage.
  cbn [_requiredResponses device _responses _handle timers]. rewrite Hm, Hf.
  cbn [_exchangeEvents _eventIndex].
  destruct (Nat.leb_spec (length evs) (S idx)) as [Hle|Hgt].
  - unfold settle. cbn [_resolve]. cbn.
    repeat split; try reflexivity; try lia.
  - unfold startExchangeEvent. cbn [_exchangeEvents _eventIndex].
    destruct (lookup_lt_is_Some_2 evs (S idx) Hgt) as [ev' Hev'].
    rewrite Hev'. cbn.
    repeat split; try reflexivity; try lia.
    + exists ev'. split; [exact Hev' | reflexivity].
    + exists ev'. split; reflexivity.
Qed.

Lemma armed_run (fs : list (list Z)) (ex : MIDIExchange) (p h : nat) :
  armed ex p h →
  Forall2 (fun ev f => answers (device ex) ev f = true)
    (drop (_eventIndex ex) (_exchangeEvents ex)) fs →
  let ex' := run ex (map Frame fs) in
  settled ex' = settled ex ++ [(p, Resolved)]
  ∧ _responses ex' = _responses ex ++ fs
  ∧ sent ex' = sent ex ++ map request (drop (S (_eventIndex ex)) (_exchangeEvents ex))
  ∧ timers ex' = [] ∧ listening ex' = false.
Proof.
  revert ex h. induction fs as [|f fs IH]; intros ex h Harm Hall ex'.
  - destruct Harm as (_ & _ & _ & _ & ev & Hev & _).
    rewrite (drop_S _ _ _ Hev) in Hall. inversion Hall.
  - pose proof Harm as (_ & _ & _ & _ & ev & Hev & _).
    rewrite (drop_S _ _ _ Hev) in Hall.
    apply Forall2_cons in Hall as [Hans Hall].
    destruct (armed_frame ex p h ev f Harm Hev Hans)
      as (Hr & Hi & He & Hd & Hlast & Hnext).
    subst ex'. change (run ex (map Frame (f :: fs)))
      with (run (exchange_of (deliver ex f)) (map Frame fs)).
    set (ex1 := exchange_of (deliver ex f)) in *.
    destruct (Nat.le_gt_cases (length (_exchangeEvents ex)) (S (_eventIndex ex)))
      as [Hle|Hgt].
    + destruct (Hlast Hle) as (Hs & Hsn & Ht & Hl).
      rewrite (drop_ge _ (S _)) in Hall |- * by assumption.
      inversion Hall. subst fs. cbn [map run foldl].
      rewrite Hs, Hr, Hsn, Ht, Hl, app_nil_r. repeat split.
    + destruct (Hnext Hgt) as (Hs & Harm1 & ev' & Hev' & Hsn).
      destruct (IH ex1 (next_timer ex) Harm1) as (H1 & H2 & H3 & H4 & H5).
      { rewrite Hd, Hi, He. exact Hall. }
      rewrite H1, H2, H3, H4, H5, Hs, Hr, Hsn, Hi, He.
      rewrite (drop_S _ _ _ Hev'). cbn [map].
      rewrite <- !app_assoc. repeat split.
Qed.

(** X18. An exchange whose frames answer its events one by one runs to
    completion: when frame k completes event k (the event asks for nothing,
    or for one descriptor that frame k matches), then after start and the
    frames the promise is resolved exactly once, the recorded responses are
    the frames in order, the requests were sent in event order, no timeout
    is left armed and the listener is removed. *)
Theorem answered_exchange_resolves (dev : MIDIDevice) (evs : list IExchangeEvent)
    (fs : list (list Z)) (msTimeout : option Z) :
  evs ≠ [] →
  Forall2 (fun ev f => answers dev ev f = true) evs fs →
  let ex := run (new_MIDIExchange dev evs msTimeout) (CallStart :: map Frame fs) in
  settled ex = [(0%nat, Resolved)]
  ∧ _responses ex = fs
  ∧ sent ex = map request evs
  ∧ timers ex = [] ∧ listening ex = false.
Proof.
  intros Hne Hall ex. destruct evs as [|ev evs]; [contradiction|].
  set (ex1 := exchange_of (fst (start (new_MIDIExchange dev (ev :: evs) msTimeout)))).
  assert (Harm : armed ex1 0 0).
  { subst ex1. destruct msTimeout as [[| |]|]; repeat split; exists ev; split; reflexivity. }
  assert (Hf : device ex1 = dev ∧ _eventIndex ex1 = 0%nat
               ∧ _exchangeEvents ex1 = ev :: evs ∧ settled ex1 = []
               ∧ _responses ex1 = [] ∧ sent ex1 = [request ev]).
  { subst ex1. destruct msTimeout as [[| |]|]; repeat split. }
  destruct Hf as (Hd & Hi & He & Hs & Hr & Hsn).
  destruct (armed_run fs ex1 0 0 Harm) as (H1 & H2 & H3 & H4 & H5).
  { rewrite Hd, Hi, He. exact Hall. }
  change ex with (run ex1 (map Frame fs)).
  rewrite H1, H2, H3, H4, H5, Hs, Hr, Hsn, Hi, He. repeat split.
Qed.

Lemma answered_exchange_resolves_witness :
  let dev := new_MIDIDevice (IdNum 0x43) None in
  let evs := [mkEvent [0xf0; 0x7e; 0x10; 0x06; 0x01; 0xf7]
                (OneResponse (mkRequired None None (Some [0x7e; 0xff; 0x06; 0x02])))] in
  let fs := [[0xf0; 0x43; 0x10; 0x7e; 0x00; 0x06; 0x02; 0xf7]] in
  _responses (run (new_MIDIExchange dev evs (Some 50)) (CallStart :: map Frame fs)) = fs.
Proof.
  intros dev evs fs.
  apply (answered_exchange_resolves dev evs fs (Some 50)).
  - discriminate.
  - repeat constructor.
Defined.

End ExchangeCompletion.

Section ExchangeEdges.

Import Codec Exchange Spec Observed.

(** X19. The listener is registered by the constructor, so a frame that
    arrives before start() is taken as the response of event 0, whose
    request was never sent.  On a one-event exchange this removes the
    listener and ends in a TypeError (there is no resolver yet); a later
    start() sends the request but hears nothing any more, and only the
    timeout is left to settle its promise.  On a longer exchange the request
    of event 1 goes out before start() was called. *)
Theorem frame_before_start_is_consumed (dev : MIDIDevice) (ev ev2 : IExchangeEvent)
    (evs : list IExchangeEvent) (msTimeout : option Z) (frame : list Z) :
  let T := match msTimeout with Some 0 | None => 5000 | Some t => t end in
  let ex1 := mkExchange dev false false None T None [ev] [frame] 1%nat None false
               [] [] 0%nat 0%nat [] in
  let ex2 := mkExchange dev false false (Some 0%nat) T (Some 0%nat) [ev] [frame] 0%nat
               (required_of ev) false [request ev] [0%nat] 1%nat 1%nat [] in
  deliver (new_MIDIExchange dev [ev] msTimeout) frame = Threw ex1
  ∧ start ex1 = (Done ex2, Pending 0)
  ∧ (∀ f, deliver ex2 f = Done ex2)
  ∧ settled (exchange_of (timeout_fires ex2 0)) = [(0%nat, Rejected (TimeoutReached T))]
  ∧ (let ex := exchange_of (deliver (new_MIDIExchange dev (ev :: ev2 :: evs) msTimeout)
                              frame) in
     sent ex = [request ev2] ∧ _responses ex = [frame] ∧ _eventIndex ex = 1%nat
     ∧ settled ex = []).
Proof.
  intros T ex1 ex2.
  split; [subst T ex1; destruct msTimeout as [[| |]|]; reflexivity|].
  split; [reflexivity|]. split; [reflexivity|]. split.
  - unfold timeout_fires, ex2. cbn [timers].
    rewrite bool_decide_eq_true_2 by apply list_elem_of_here.
    rewrite filter_cons_False by (intros H; apply H; reflexivity).
    rewrite filter_nil. reflexivity.
  - destruct msTimeout as [[| |]|]; repeat split.
Qed.

Lemma step_one_timer (ex : MIDIExchange) (e : event) :
  e ≠ CallStart →
  (timers ex = [] ∨ ∃ h, timers ex = [h] ∧ _handle ex = Some h) →
  timers (step ex e) = [] ∨ ∃ h, timers (step ex e) = [h] ∧ _handle (step ex e) = Some h.
Proof.
  intros He HI. destruct e as [|d|h]; [contradiction| |]; cbn [step].
  - unfold deliver. destruct (listening ex); [|exact HI].
    unfold onMidiMessage.
    destruct (match _requiredResponses ex with Some _ => _ | None => _ end)
      as [[responses required] completed].
    destruct completed; [|exact HI].
    assert (Hlive : match _handle ex with
                    | Some h => filter (fun t => t ≠ h) (timers ex)
                    | None => timers ex
                    end = []).
    { destruct HI as [-> | (h & -> & ->)].
      - destruct (_handle ex); reflexivity.
      - rewrite filter_cons_False by (intros H; apply H; reflexivity). apply filter_nil. }
    rewrite Hlive. cbn [_exchangeEvents _eventIndex].
    destruct (_ <=? _)%nat.
    + unfold settle. cbn [_resolve]. destruct (_resolve ex); left; reflexivity.
    + unfold startExchangeEvent. cbn [_exchangeEvents _eventIndex].
      destruct (_exchangeEvents ex !! S (_eventIndex ex)); cbn.
      * right. eexists. split; reflexivity.
      * left. reflexivity.
  - unfold timeout_fires. destruct (bool_decide (h ∈ timers ex)) eqn:Hin; [|exact HI].
    apply bool_decide_eq_true in Hin.
    assert (Hf : filter (fun t => t ≠ h) (timers ex) = []).
    { destruct HI as [E | (h0 & E & _)]; rewrite E in Hin |- *.
      - reflexivity.
      - apply list_elem_of_singleton in Hin. subst h0.
        rewrite filter_cons_False by (intros H; apply H; reflexivity). apply filter_nil. }
    rewrite Hf. unfold settle. cbn [_resolve]. destruct (_resolve ex); left; reflexivity.
Qed.

(** X20. When start() is called on an exchange with no timeout armed, as
    it is right after construction, then until the next start() at most one
    timeout is armed at any time, and it is the one the exchange holds the
    handle of: completing an event cancels its timeout before the next one
    is armed.  The condition is needed: a frame before start() on an
    exchange of two or more events arms the timeout of event 1, start()
    does not cancel it, and two timeouts are armed. *)
Theorem one_timeout_at_a_time :
  (∀ ex es,
     timers ex = [] → Forall (fun e => e ≠ CallStart) es →
     let ex' := run (step ex CallStart) es in
     (length (timers ex') ≤ 1)%nat ∧ ∀ h, h ∈ timers ex' → _handle ex' = Some h)
  ∧ (∀ dev ev evs msTimeout es,
       Forall (fun e => e ≠ CallStart) es →
       let ex' := run (new_MIDIExchange dev (ev :: evs) msTimeout) (CallStart :: es) in
       (length (timers ex') ≤ 1)%nat ∧ ∀ h, h ∈ timers ex' → _handle ex' = Some h)
  ∧ (∀ dev ev ev2 evs msTimeout frame,
       let ex' := run (new_MIDIExchange dev (ev :: ev2 :: evs) msTimeout)
                    [Frame frame; CallStart] in
       timers ex' = [0%nat; 1%nat] ∧ _handle ex' = Some 1%nat).
Proof.
  assert (Hgen : ∀ ex es,
     timers ex = [] → Forall (fun e => e ≠ CallStart) es →
     let ex' := run (step ex CallStart) es in
     (length (timers ex') ≤ 1)%nat ∧ ∀ h, h ∈ timers ex' → _handle ex' = Some h).
  { intros ex es Hno Hes ex'.
    assert (H1 : timers (step ex CallStart) = []
                 ∨ ∃ h, timers (step ex CallStart) = [h]
                        ∧ _handle (step ex CallStart) = Some h).
    { cbn [step]. unfold start.
      destruct (_isRunning ex); [left; exact Hno|].
      destruct (_isCompleted ex); [left; exact Hno|].
      cbn [_exchangeEvents].
      destruct (length (_exchangeEvents ex) =? 0)%nat; [left; exact Hno|].
      cbn [fst]. unfold startExchangeEvent. cbn [_exchangeEvents _eventIndex].
      destruct (_exchangeEvents ex !! 0%nat); cbn.
      - right. rewrite Hno. eexists. split; reflexivity.
      - left. exact Hno. }
    assert (HI : timers ex' = [] ∨ ∃ h, timers ex' = [h] ∧ _handle ex' = Some h).
    { subst ex'. generalize dependent (step ex CallStart). clear ex Hno.
      induction Hes as [|e es He Hes IH]; intros ex1 H1; [exact H1|].
      change (run ex1 (e :: es)) with (run (step ex1 e) es).
      apply IH. apply step_one_timer; assumption. }
    destruct HI as [E | (h & E & Hh)]; rewrite E.
    - split; [simpl; lia|]. intros h Hin. apply elem_of_nil in Hin. contradiction.
    - split; [simpl; lia|]. intros h' Hin.
      apply list_elem_of_singleton in Hin. subst h'. exact Hh. }
  split; [exact Hgen|]. split.
  - intros dev ev evs msTimeout es Hes ex'.
    apply (Hgen (new_MIDIExchange dev (ev :: evs) msTimeout) es); [reflexivity | exact Hes].
  - intros dev ev ev2 evs msTimeout frame ex'. subst ex'.
    destruct msTimeout as [[| |]|]; split; reflexivity.
Qed.

Lemma one_timeout_at_a_time_witness :
  let dev := new_MIDIDevice (IdNum 0x43) None in
  let ex := run (new_MIDIExchange dev
                   [mkEvent [0xf0] NoResponse; mkEvent [0xf1] NoResponse] None)
              [CallStart; Frame [0x01]] in
  (length (timers ex) ≤ 1)%nat.
Proof.
  intros dev ex.
  apply (proj1 (proj2 one_timeout_at_a_time) dev (mkEvent [0xf0] NoResponse)
           [mkEvent [0xf1] NoResponse] None [Frame [0x01]]).
  repeat constructor. discriminate.
Defined.

End ExchangeEdges.

Section ShapeWitness.

Import Codec Channel.

Lemma channel_keeps_its_shape_witness :
  let on := makeNoteOn true 0 0 60 100 in
  Forall (fun m => msg_status m = NoteOn ∧ note m = Some (Z.of_nat 60)) [on].
Proof.
  intros on.
  apply (proj1 (proj2 (channel_keeps_its_shape 0 [Update on])) 60%nat [on]).
  reflexivity.
Defined.

End ShapeWitness.
